(** * marlin-plotjog: joystick-to-G-code teleoperation bridge

  A shallow embedding of [joystick.py] (the Linux joystick reader) and
  [plotjog.py] (the reactive pipeline, the single-slot mailbox and the
  actuation loop), followed by the properties established about them.

  Conventions of the embedding:
  - Python floats and numpy [float64] values are IEEE binary64 numbers,
    modelled by Rocq's primitive [float] with the same operations;
  - Python exceptions are a result type that either returns or raises;
  - module-level mutable objects (the joystick state, the serial port,
    the cell [new_position]) are explicit state;
  - a critical section run under [with cv:] is one atomic step. *)

From Stdlib Require Import ZArith List String Ascii Bool Lia Floats.
From Stdlib Require Import DecimalString.
From Stdlib Require Strings.Byte.
Import ListNotations.

Set Implicit Arguments.
Set Warnings "-inexact-float".

(** ** Python values, exceptions and results *)

Module Py.

Inductive exn : Type :=
| AttributeError
| IndexError
| StructError
| ValueError
| TypeError
| SerialException.

Inductive result (A : Type) : Type :=
| Ok (a : A)
| Raise (e : exn).

Arguments Ok {A} a.
Arguments Raise {A} e.

(** [float(v)] for a Python int: exact for every |v| < 2^53. *)
Definition float_of_int (v : Z) : float :=
  if (v <? 0)%Z
  then PrimFloat.opp (PrimFloat.of_uint63 (Uint63.of_Z (- v)))
  else PrimFloat.of_uint63 (Uint63.of_Z v).

(** A [dict] with string keys: insertion-ordered, one entry per key;
    [d[k] = v] replaces the entry of [k] or appends a new one. *)
Fixpoint dict_set {V} (k : string) (v : V) (d : list (string * V))
  : list (string * V) :=
  match d with
  | [] => [(k, v)]
  | (k', v') :: d' =>
      if String.eqb k k' then (k, v) :: d' else (k', v') :: dict_set k v d'
  end.

(** Truthiness of a Python int and of a Python str. *)
Definition truthy_int (n : Z) : bool := negb (n =? 0)%Z.
Definition truthy_str (s : string) : bool :=
  match s with EmptyString => false | _ => true end.

End Py.

Import Py.

(** ** joystick.py *)

Module Joystick.

Record JoystickState : Type := mkJoystickState {
  axis_map : list string;
  button_map : list string;
  axis_states : list (string * float);
  button_states : list (string * Z)
}.

Record Event : Type := mkEvent {
  ev_time : Z;
  ev_value : Z;
  ev_type : Z;
  ev_number : Z
}.

Record ButtonChange : Type := mkButtonChange {
  bc_number : Z;
  bc_button : string;
  bc_value : Z
}.

Record AxisChange : Type := mkAxisChange {
  number : Z;
  axis : string;
  ivalue : Z;
  fvalue : float
}.

Record PollResult : Type := mkPollResult {
  full_axis_states : list (string * float);
  full_button_states : list (string * Z);
  event : Event;
  changed_axis : option AxisChange;
  changed_button : option ButtonChange
}.

(** [make_zero_state], given the names that [read_axis_map] and
    [read_button_map] obtained from the device. *)
Definition make_zero_state (axis_names button_names : list string)
  : JoystickState :=
  {| axis_map := axis_names;
     button_map := button_names;
     axis_states :=
       fold_left (fun d n => dict_set n 0%float d) axis_names [];
     button_states :=
       fold_left (fun d n => dict_set n 0%Z d) button_names [] |}.

Definition byte_val (b : Byte.byte) : Z := Z.of_N (Byte.to_N b).

(** A two's-complement 16-bit value from its unsigned reading. *)
Definition int16 (u : Z) : Z :=
  if (u <? 32768)%Z then u else (u - 65536)%Z.

(** [struct.unpack('IhBB', evbuf)]: an unsigned 32-bit time, a signed
    16-bit value and two unsigned bytes, eight bytes in all, in the
    byte order of the host (little-endian here). Any other length
    raises [struct.error]. *)
Definition unpack_IhBB (evbuf : list Byte.byte) : result Event :=
  match evbuf with
  | [b0; b1; b2; b3; b4; b5; b6; b7] =>
      Ok {| ev_time :=
              (byte_val b0 + Z.shiftl (byte_val b1) 8
               + Z.shiftl (byte_val b2) 16 + Z.shiftl (byte_val b3) 24)%Z;
            ev_value := int16 (byte_val b4 + Z.shiftl (byte_val b5) 8)%Z;
            ev_type := byte_val b6;
            ev_number := byte_val b7 |}
  | _ => Raise StructError
  end.

(** [seq[i]] for an index that is never negative. *)
Definition index {A} (l : list A) (i : Z) : result A :=
  match nth_error l (Z.to_nat i) with
  | Some a => Ok a
  | None => Raise IndexError
  end.

(** [value / 32767.0]. *)
Definition normalize (value : Z) : float :=
  (float_of_int value / 32767.0)%float.

(** The [if type & 0x01:] block of [poll]. *)
Definition poll_button (st : JoystickState) (ev : Event)
  : result (option ButtonChange) * JoystickState :=
  if truthy_int (Z.land (ev_type ev) 1) then
    match index (button_map st) (ev_number ev) with
    | Raise e => (Raise e, st)
    | Ok button =>
        if truthy_str button then
          (Ok (Some (mkButtonChange (ev_number ev) button (ev_value ev))),
           {| axis_map := axis_map st;
              button_map := button_map st;
              axis_states := axis_states st;
              button_states :=
                dict_set button (ev_value ev) (button_states st) |})
        else (Ok None, st)
    end
  else (Ok None, st).

(** The [if type & 0x02:] block of [poll]. *)
Definition poll_axis (st : JoystickState) (ev : Event)
  : result (option AxisChange) * JoystickState :=
  if truthy_int (Z.land (ev_type ev) 2) then
    match index (axis_map st) (ev_number ev) with
    | Raise e => (Raise e, st)
    | Ok axis =>
        if truthy_str axis then
          let fvalue := normalize (ev_value ev) in
          (Ok (Some (mkAxisChange (ev_number ev) axis (ev_value ev) fvalue)),
           {| axis_map := axis_map st;
              button_map := button_map st;
              axis_states := dict_set axis fvalue (axis_states st);
              button_states := button_states st |})
        else (Ok None, st)
    end
  else (Ok None, st).

(** [Joystick.poll], where [evbuf] is what [self.dev.read(8)] returned.
    The state is threaded through: an exception leaves the updates made
    before it in place. *)
Definition poll (st : JoystickState) (evbuf : list Byte.byte)
  : result (option PollResult) * JoystickState :=
  match evbuf with
  | [] => (Ok None, st)
  | _ =>
      match unpack_IhBB evbuf with
      | Raise e => (Raise e, st)
      | Ok ev =>
          match poll_button st ev with
          | (Raise e, st1) => (Raise e, st1)
          | (Ok changed_button, st1) =>
              match poll_axis st1 ev with
              | (Raise e, st2) => (Raise e, st2)
              | (Ok changed_axis, st2) =>
                  (Ok (Some {| full_axis_states := axis_states st2;
                               full_button_states := button_states st2;
                               event := ev;
                               changed_axis := changed_axis;
                               changed_button := changed_button |}),
                   st2)
              end
          end
      end
  end.

End Joystick.

(** ** plotjog.py *)

Module Plotjog.

Import Joystick.

Definition FEEDRATE : Z := 400.
Definition MAX_REACH : float := 0.2%float.
Definition MIN_NORM : float := 0.2%float.

(** *** The serial port [tty]

    The port is an external device. What the program does with it is
    the sequence of calls it makes; what the device does in return is a
    parameter: whether the [n]-th call on the port succeeds, and the
    line a successful [readline] returns. *)

Inductive tty_call : Type :=
| FlushInput
| Write (data : string)
| ReadLine.

Record device : Type := mkDevice {
  io_ok : nat -> bool;
  reply : nat -> string
}.

(** The calls made on the port so far, oldest first, each with whether
    it succeeded. *)
Definition tty_log : Type := list (tty_call * bool).

(** Code that uses the port: it returns or raises, and extends the log. *)
Definition io (A : Type) : Type := tty_log -> result A * tty_log.

Definition ret {A} (a : A) : io A := fun log => (Ok a, log).

Definition bind {A B} (m : io A) (f : A -> io B) : io B :=
  fun log =>
    match m log with
    | (Ok a, log') => f a log'
    | (Raise e, log') => (Raise e, log')
    end.

Notation "x <- m ;; k" := (bind m (fun x => k))
  (at level 61, m at next level, right associativity).
Notation "m ;; k" := (bind m (fun _ => k))
  (at level 61, right associativity).

Section Serial.

Variable tty : device.

Definition call {A} (c : tty_call) (answer : nat -> A) : io A :=
  fun log =>
    let n := List.length log in
    if io_ok tty n
    then (Ok (answer n), (log ++ [(c, true)])%list)
    else (Raise SerialException, (log ++ [(c, false)])%list).

Definition flushInput : io unit := call FlushInput (fun _ => tt).
Definition write (data : string) : io unit :=
  call (Write data) (fun _ => tt).
Definition readline : io string := call ReadLine (reply tty).

End Serial.

(** *** Strings *)

Definition newline : string := String (ascii_of_nat 10) EmptyString.

(** The bytes that [bytes.strip()] removes. *)
Definition is_space (c : ascii) : bool :=
  let n := nat_of_ascii c in
  (Nat.eqb n 32 || (Nat.leb 9 n && Nat.leb n 13))%bool.

Fixpoint lstrip (s : list ascii) : list ascii :=
  match s with
  | c :: s' => if is_space c then lstrip s' else s
  | [] => []
  end.

Definition strip (s : string) : string :=
  string_of_list_ascii
    (rev (lstrip (rev (lstrip (list_ascii_of_string s))))).

(** [str(n)] for an int. *)
Definition str_int (n : Z) : string := NilZero.string_of_int (Z.to_int n).

Definition digit (d : Z) : ascii := ascii_of_nat (48 + Z.to_nat d).

(** The quotient [num / den] rounded to the nearest integer, ties to
    the even one. *)
Definition round_half_even (num den : Z) : Z :=
  let q := (num / den)%Z in
  match (2 * (num mod den) ?= den)%Z with
  | Lt => q
  | Gt => (q + 1)%Z
  | Eq => if Z.even q then q else (q + 1)%Z
  end.

Definition sign_prefix (negative : bool) : string :=
  if negative then "-"%string else EmptyString.

(** ['{:.3f}'.format(x)]: the exact binary value of [x] rounded to three
    decimals, ties to even, with its sign kept (also on a zero). *)
Definition format_3f (x : float) : string :=
  match Prim2SF x with
  | S754_nan => "nan"
  | S754_infinity s => if s then "-inf" else "inf"
  | S754_zero s => sign_prefix s ++ "0.000"
  | S754_finite s m e =>
      let n :=
        if (0 <=? e)%Z
        then (Zpos m * 2 ^ e * 1000)%Z
        else round_half_even (Zpos m * 1000) (2 ^ (- e)) in
      let frac := (n mod 1000)%Z in
      sign_prefix s
      ++ str_int (n / 1000)
      ++ "."
      ++ String (digit (frac / 100))
           (String (digit ((frac / 10) mod 10))
              (String (digit (frac mod 10)) EmptyString))
  end%string.

(** *** [send_gcode] *)

Definition send_gcode (tty : device) (s : string) : io string :=
  flushInput tty ;;
  write tty (s ++ newline)%string ;;
  line <- readline tty ;;
  ret (strip line).

(** *** [poll_joystick] and [update_position] *)

(** The body of [poll_joystick] after the call of [in_stick.poll()]:
    reading [changed_axis] off [None] raises. *)
Definition axis_update (poll_result : option PollResult)
  : result (list (option float)) :=
  match poll_result with
  | None => Raise AttributeError
  | Some r =>
      Ok match changed_axis r with
         | Some axis =>
             if (number axis =? 0)%Z then [Some (fvalue axis); None]
             else if (number axis =? 1)%Z then [None; Some (fvalue axis)]
             else [None; None]
         | None => [None; None]
         end
  end.

Definition poll_joystick (in_stick : JoystickState) (evbuf : list Byte.byte)
  : result (list (option float)) * JoystickState :=
  match poll in_stick evbuf with
  | (Raise e, st) => (Raise e, st)
  | (Ok poll_result, st) => (axis_update poll_result, st)
  end.

(** [update_position]: the tuples are zipped, so the result is as long
    as the shorter of the two. *)
Definition update_position {A} (accu update : list (option A))
  : list (option A) :=
  map (fun '(current, previous) =>
         match current with Some _ => current | None => previous end)
      (combine update accu).

(** The seed of the [scan] in [joystick_positions], [(0, 0)]: the two
    Python ints stand for the floats they convert to. *)
Definition joystick_positions_seed : list (option float) :=
  [Some (float_of_int 0); Some (float_of_int 0)].

(** *** The mailbox [new_position], guarded by [cv] *)

Definition target : Type := (float * float)%type.
Definition mailbox : Type := option target.

Definition new_position_available (new_position : mailbox) : bool :=
  match new_position with Some _ => true | None => false end.

(** The critical section of [move_printer]:
    [new_position = dx, dy; cv.notify()]. *)
Definition set (t : target) (new_position : mailbox) : mailbox := Some t.

(** The critical section of [execute_move]: [cv.wait_for] lets the
    thread through only when [new_position_available]; the cell is then
    read and cleared. [None] stands for a thread that stays blocked. *)
Definition takeBlocking (new_position : mailbox)
  : option (target * mailbox) :=
  if new_position_available new_position
  then match new_position with
       | Some t => Some (t, None)
       | None => None
       end
  else None.

(** *** [execute_move] *)

(** The two directives of one activation (the part of the loop body
    after the critical section). *)
Definition move_directive (dx dy : float) : string :=
  ("G1 X" ++ format_3f dx ++ " Y" ++ format_3f (- dy)%float
   ++ " F" ++ str_int FEEDRATE)%string.

Definition activation (tty : device) (t : target) : io unit :=
  let '(dx, dy) := t in
  send_gcode tty "G91" ;;
  send_gcode tty (move_directive dx dy) ;;
  ret tt.

(** Where the actuation thread is when the observation ends: blocked
    in [cv.wait_for], or terminated by an exception that left the
    [while True] loop. *)
Inductive loop_status : Type :=
| Waiting
| Terminated (e : exn).

(** [execute_move], run against a schedule of the producer: each entry
    lists the targets the producer stores, in order, before the next
    time the loop passes [cv.wait_for] (an empty entry is a wake-up
    that finds nothing). *)
Fixpoint execute_move (tty : device) (schedule : list (list target))
    (new_position : mailbox) (log : tty_log)
  : loop_status * mailbox * tty_log :=
  match schedule with
  | [] => (Waiting, new_position, log)
  | stored :: schedule' =>
      let cell := fold_left (fun np t => set t np) stored new_position in
      match takeBlocking cell with
      | None => execute_move tty schedule' cell log
      | Some (t, cell') =>
          match activation tty t log with
          | (Ok _, log') => execute_move tty schedule' cell' log'
          | (Raise e, log') => (Terminated e, cell', log')
          end
      end
  end.

(** *** [move_printer] *)

(** A tuple handed to numpy: an element that is [None] is a
    [TypeError]. *)
Fixpoint as_floats (delta : list (option float)) : result (list float) :=
  match delta with
  | [] => Ok []
  | Some v :: delta' =>
      match as_floats delta' with
      | Ok vs => Ok (v :: vs)
      | Raise e => Raise e
      end
  | None :: _ => Raise TypeError
  end.

(** The fused multiply-add of the processor: [x * y + z] computed
    exactly and rounded once, to nearest with ties to even. The exact
    product of two finite numbers is kept unrounded as a mantissa and an
    exponent, and the sum rounds it together with [z]; in every other
    case the product is exact as it is, or the sum does not depend on
    its last bits. *)
Definition fma (x y z : float) : float :=
  SF2Prim
    match Prim2SF x, Prim2SF y, Prim2SF z with
    | S754_finite sx mx ex, S754_finite sy my ey, S754_finite _ _ _ =>
        SFadd prec emax
              (S754_finite (xorb sx sy) (mx * my) (ex + ey)) (Prim2SF z)
    | px, py, pz => SFadd prec emax (SFmul prec emax px py) pz
    end.

(** [np.linalg.norm] of a vector: the square root of the dot product
    of the vector with itself. The dot product adds the products up in
    the order of the elements, from 0.0, each step being one fused
    multiply-add. *)
Definition norm (v : list float) : float :=
  PrimFloat.sqrt (fold_left (fun acc x => fma x x acc) v 0%float).

(** [move_printer]; the line it prints on the console is left out. *)
Definition move_printer (delta : list (option float))
    (new_position : mailbox) : result mailbox :=
  match as_floats delta with
  | Raise e => Raise e
  | Ok v =>
      if (MIN_NORM <? norm v)%float then
        match map (fun x => x * MAX_REACH)%float v with
        | [dx; dy] => Ok (set (dx, dy) new_position)
        | _ => Raise ValueError
        end
      else Ok new_position
  end.

(** *** The subscription

    [joystick_positions.filter(...).combine_latest(Observable.interval(20),
    lambda a, b: a).observe_on(...).subscribe(on_next=move_printer)].

    The two timers fire in some order; each firing of the poll timer
    comes with the bytes its blocking read returned. The operators are
    those of Rx: [scan] with a seed emits the accumulator after each
    input; [filter] drops what fails its predicate; [combine_latest]
    remembers the latest value of each side and emits, once both sides
    have one, on every emission of either side; [observe_on] delivers
    in order; an exception ends the stream. *)

Inductive timer_event : Type :=
| PollTick (evbuf : list Byte.byte)
| CommandTick.

(** The state of the subscription. [forwarded] is a record kept for the
    proofs: every argument [move_printer] was called with, oldest
    first, each with the command tick that was the latest then. *)
Record pipeline : Type := mkPipeline {
  in_stick : JoystickState;
  accu : list (option float);
  latest_position : option (list (option float));
  latest_tick : option Z;
  new_position : mailbox;
  forwarded : list (Z * list (option float));
  failure : option exn
}.

Definition all_not_None (pos : list (option float)) : bool :=
  forallb (fun val => match val with Some _ => true | None => false end)
          pos.

Definition on_next (tick : Z) (pos : list (option float)) (s : pipeline)
  : pipeline :=
  match move_printer pos (new_position s) with
  | Ok cell =>
      {| in_stick := in_stick s; accu := accu s;
         latest_position := latest_position s;
         latest_tick := latest_tick s;
         new_position := cell;
         forwarded := forwarded s ++ [(tick, pos)];
         failure := failure s |}
  | Raise e =>
      {| in_stick := in_stick s; accu := accu s;
         latest_position := latest_position s;
         latest_tick := latest_tick s;
         new_position := new_position s;
         forwarded := forwarded s ++ [(tick, pos)];
         failure := Some e |}
  end.

Definition on_poll (evbuf : list Byte.byte) (s : pipeline) : pipeline :=
  match poll_joystick (in_stick s) evbuf with
  | (Raise e, st) =>
      {| in_stick := st; accu := accu s;
         latest_position := latest_position s;
         latest_tick := latest_tick s;
         new_position := new_position s;
         forwarded := forwarded s;
         failure := Some e |}
  | (Ok update, st) =>
      let pos := update_position (accu s) update in
      if all_not_None pos then
        let s' :=
          {| in_stick := st; accu := pos;
             latest_position := Some pos;
             latest_tick := latest_tick s;
             new_position := new_position s;
             forwarded := forwarded s;
             failure := failure s |} in
        match latest_tick s with
        | Some tick => on_next tick pos s'
        | None => s'
        end
      else
        {| in_stick := st; accu := pos;
           latest_position := latest_position s;
           latest_tick := latest_tick s;
           new_position := new_position s;
           forwarded := forwarded s;
           failure := failure s |}
  end.

Definition on_command_tick (s : pipeline) : pipeline :=
  let tick :=
    match latest_tick s with Some n => (n + 1)%Z | None => 0%Z end in
  let s' :=
    {| in_stick := in_stick s; accu := accu s;
       latest_position := latest_position s;
       latest_tick := Some tick;
       new_position := new_position s;
       forwarded := forwarded s;
       failure := failure s |} in
  match latest_position s with
  | Some pos => on_next tick pos s'
  | None => s'
  end.

Definition step (s : pipeline) (ev : timer_event) : pipeline :=
  match failure s with
  | Some _ => s
  | None =>
      match ev with
      | PollTick evbuf => on_poll evbuf s
      | CommandTick => on_command_tick s
      end
  end.

Definition subscribe (stick : JoystickState) : pipeline :=
  {| in_stick := stick; accu := joystick_positions_seed;
     latest_position := None; latest_tick := None;
     new_position := None; forwarded := []; failure := None |}.

Definition run (s : pipeline) (evs : list timer_event) : pipeline :=
  fold_left step evs s.

End Plotjog.

(** * Properties *)

Import Joystick Plotjog.

(** ** The joystick reader *)

(** A bounded universal check over consecutive integers, by evaluation. *)
Fixpoint all_from (P : Z -> bool) (lo : Z) (n : nat) : bool :=
  match n with
  | O => true
  | S n' => P lo && all_from P (lo + 1) n'
  end.

Lemma all_from_spec (P : Z -> bool) (n : nat) :
  forall lo, all_from P lo n = true ->
  forall v, (lo <= v < lo + Z.of_nat n)%Z -> P v = true.
Proof.
  induction n as [|n IH]; intros lo H v Hv.
  - simpl in Hv. lia.
  - simpl in H. apply andb_prop in H. destruct H as [Hlo Hrest].
    destruct (Z.eq_dec v lo) as [->|Hne]; [exact Hlo|].
    apply (IH (lo + 1)%Z Hrest). lia.
Qed.

Definition in_unit_interval (f : float) : bool :=
  ((-1 <=? f) && (f <=? 1))%float.

Lemma normalize_all_in_unit_interval :
  all_from (fun v => in_unit_interval (normalize v)) (-32767)
           (Z.to_nat 65535) = true.
Proof. vm_compute. reflexivity. Qed.

Lemma normalize_in_unit_interval (v : Z) :
  (-32767 <= v <= 32767)%Z -> in_unit_interval (normalize v) = true.
Proof.
  intros Hv.
  pose proof (@all_from_spec _ _ _ normalize_all_in_unit_interval v) as H.
  cbv beta in H. apply H.
  rewrite Z2Nat.id by lia. lia.
Qed.

Lemma byte_val_range (b : Byte.byte) : (0 <= byte_val b < 256)%Z.
Proof.
  unfold byte_val. pose proof (Byte.to_N_bounded b) as H. lia.
Qed.

Lemma int16_range (u : Z) :
  (0 <= u < 65536)%Z -> (-32768 <= int16 u <= 32767)%Z.
Proof.
  intros Hu. unfold int16. destruct (Z.ltb_spec u 32768); lia.
Qed.

Lemma unpack_IhBB_ranges (evbuf : list Byte.byte) (ev : Event) :
  unpack_IhBB evbuf = Ok ev ->
  (-32768 <= ev_value ev <= 32767)%Z /\ (0 <= ev_number ev < 256)%Z.
Proof.
  unfold unpack_IhBB.
  destruct evbuf as [|b0 [|b1 [|b2 [|b3 [|b4 [|b5 [|b6 [|b7 [|b8 t]]]]]]]]];
    try discriminate.
  intros H. apply (f_equal (fun r => match r with Ok e => e | Raise _ => ev end)) in H.
  subst ev. unfold ev_value, ev_number.
  pose proof (byte_val_range b4). pose proof (byte_val_range b5).
  split; [|apply byte_val_range].
  apply int16_range.
  rewrite Z.shiftl_mul_pow2 by lia. lia.
Qed.

(** The axis change, if any, that a poll reports. *)
Definition polled_axis (st : JoystickState) (evbuf : list Byte.byte)
  : option AxisChange :=
  match poll st evbuf with
  | (Ok (Some r), _) => changed_axis r
  | _ => None
  end.

Lemma poll_axis_change (st st' : JoystickState) (ev : Event)
    (a : AxisChange) :
  poll_axis st ev = (Ok (Some a), st') ->
  number a = ev_number ev /\ ivalue a = ev_value ev
  /\ fvalue a = normalize (ev_value ev)
  /\ nth_error (axis_map st) (Z.to_nat (ev_number ev)) = Some (axis a).
Proof.
  unfold poll_axis, index.
  destruct (truthy_int (Z.land (ev_type ev) 2)); [|discriminate].
  destruct (nth_error (axis_map st) (Z.to_nat (ev_number ev))) as [name|];
    [|discriminate].
  destruct (truthy_str name); [|discriminate].
  intros H. injection H as <- _. simpl. auto.
Qed.

Lemma polled_axis_event (st : JoystickState) (evbuf : list Byte.byte)
    (a : AxisChange) :
  polled_axis st evbuf = Some a ->
  exists ev, unpack_IhBB evbuf = Ok ev
             /\ number a = ev_number ev /\ ivalue a = ev_value ev
             /\ fvalue a = normalize (ev_value ev).
Proof.
  unfold polled_axis, poll.
  destruct evbuf as [|b evbuf]; [discriminate|].
  destruct (unpack_IhBB (b :: evbuf)) as [ev|e]; [|discriminate].
  destruct (poll_button st ev) as [[cb|e] st1]; [|discriminate].
  destruct (poll_axis st1 ev) as [[ca|e] st2] eqn:Hax; [|discriminate].
  simpl. intros ->.
  destruct (poll_axis_change _ _ Hax) as (Hn & Hi & Hf & _).
  exists ev. auto.
Qed.

Definition example_stick : JoystickState :=
  make_zero_state ["x"; "y"]%string ["a"]%string.

(** Axis events as the device delivers them: axis 0 at 16384, axis 1 at
    16384, axis 0 at -32768, axis 2 at 16384. *)
Definition x_half : list Byte.byte :=
  [Byte.x00; Byte.x00; Byte.x00; Byte.x00;
   Byte.x00; Byte.x40; Byte.x02; Byte.x00].
Definition y_half : list Byte.byte :=
  [Byte.x00; Byte.x00; Byte.x00; Byte.x00;
   Byte.x00; Byte.x40; Byte.x02; Byte.x01].
Definition x_lowest : list Byte.byte :=
  [Byte.x00; Byte.x00; Byte.x00; Byte.x00;
   Byte.x00; Byte.x80; Byte.x02; Byte.x00].

(** C7, as stated, fails: the event value -32768, which the 16-bit field
    of an event can carry, is normalized by [poll] to a value below -1. *)
Lemma fvalue_below_unit_interval :
  exists a, polled_axis example_stick x_lowest = Some a
            /\ ivalue a = (-32768)%Z
            /\ (fvalue a <? -1)%float = true
            /\ in_unit_interval (fvalue a) = false.
Proof.
  exists (mkAxisChange 0 "x" (-32768) (normalize (-32768))).
  vm_compute. auto.
Qed.

(** C7, amended: for every event [poll] decodes, the value lies in
    [-32768, 32767], [fvalue] is that value divided by 32767.0, and
    [fvalue] lies in [-1.0, 1.0] exactly when the value is not -32768;
    at -32768 it is below -1.0. *)
Theorem fvalue_range (st : JoystickState) (evbuf : list Byte.byte)
    (a : AxisChange) :
  polled_axis st evbuf = Some a ->
  (-32768 <= ivalue a <= 32767)%Z
  /\ fvalue a = normalize (ivalue a)
  /\ (in_unit_interval (fvalue a) = true <-> ivalue a <> (-32768)%Z)
  /\ (ivalue a = (-32768)%Z -> (fvalue a <? -1)%float = true).
Proof.
  intros H.
  destruct (polled_axis_event _ _ H) as (ev & Hev & _ & Hi & Hf).
  destruct (unpack_IhBB_ranges _ Hev) as [Hrange _].
  rewrite Hf, Hi. repeat split; try lia.
  - intros Hin Heq. rewrite Heq in Hin. vm_compute in Hin. discriminate.
  - intros Hne. apply normalize_in_unit_interval. lia.
  - intros Heq. rewrite Heq. vm_compute. reflexivity.
Qed.

Lemma fvalue_range_witness :
  (-32768 <= 16384 <= 32767)%Z
  /\ normalize 16384 = normalize 16384
  /\ (in_unit_interval (normalize 16384) = true <-> 16384%Z <> (-32768)%Z)
  /\ (16384%Z = (-32768)%Z -> (normalize 16384 <? -1)%float = true).
Proof.
  exact (@fvalue_range example_stick x_half
           (mkAxisChange 0 "x" 16384 (normalize 16384)) eq_refl).
Defined.

(** ** [poll_joystick] *)

Lemma poll_joystick_returns (st st' : JoystickState)
    (evbuf : list Byte.byte) (update : list (option float)) :
  poll_joystick st evbuf = (Ok update, st') ->
  exists r, poll st evbuf = (Ok (Some r), st')
            /\ polled_axis st evbuf = changed_axis r
            /\ axis_update (Some r) = Ok update.
Proof.
  unfold poll_joystick, polled_axis.
  destruct (poll st evbuf) as [[[r|]|e] st1]; simpl; try discriminate.
  intros H. injection H as Hu <-. exists r.
  repeat split. now rewrite Hu.
Qed.

(** C8: when the device read returns nothing, [Joystick.poll] returns
    [None] and leaves the state alone, and [poll_joystick], which reads
    [changed_axis] off that [None], raises [AttributeError] instead of
    returning [(None, None)]. *)
Theorem poll_joystick_no_event (st : JoystickState) :
  poll st [] = (Ok None, st)
  /\ poll_joystick st [] = (Raise AttributeError, st)
  /\ poll_joystick st [] <> (Ok [None; None], st).
Proof.
  repeat split. discriminate.
Qed.

(** C10: a pair returned by [poll_joystick] has at most one component
    that is not [None], and both are [None] when the poll reports no
    changed axis or one whose number is neither 0 nor 1. *)
Theorem poll_joystick_one_axis (st st' : JoystickState)
    (evbuf : list Byte.byte) (update : list (option float)) :
  poll_joystick st evbuf = (Ok update, st') ->
  exists x y,
    update = [x; y]
    /\ (x = None \/ y = None)
    /\ (polled_axis st evbuf = None -> x = None /\ y = None)
    /\ (forall a, polled_axis st evbuf = Some a ->
                  number a <> 0%Z -> number a <> 1%Z ->
                  x = None /\ y = None).
Proof.
  intros H.
  destruct (poll_joystick_returns _ _ H) as (r & _ & Hpa & Hup).
  rewrite Hpa. unfold axis_update in Hup. injection Hup as <-.
  destruct (changed_axis r) as [a|].
  - destruct (Z.eqb_spec (number a) 0) as [E0|N0].
    + exists (Some (fvalue a)), None.
      split; [reflexivity|]. split; [now right|].
      split; [discriminate|].
      intros a' [= <-] H0 _. contradiction.
    + destruct (Z.eqb_spec (number a) 1) as [E1|N1].
      * exists None, (Some (fvalue a)).
        split; [reflexivity|]. split; [now left|].
        split; [discriminate|].
        intros a' [= <-] _ H1. contradiction.
      * exists None, None. repeat split; auto.
  - exists None, None. repeat split; auto.
Qed.

Lemma poll_joystick_one_axis_witness :
  exists x y,
    [Some (normalize 16384); None] = [x; y]
    /\ (x = None \/ y = None)
    /\ (polled_axis example_stick x_half = None -> x = None /\ y = None)
    /\ (forall a, polled_axis example_stick x_half = Some a ->
                  number a <> 0%Z -> number a <> 1%Z ->
                  x = None /\ y = None).
Proof.
  exact (@poll_joystick_one_axis example_stick
           (snd (poll_joystick example_stick x_half)) x_half
           [Some (normalize 16384); None] eq_refl).
Defined.

(** ** The aggregator: [update_position] folded over sparse updates *)

Section Aggregator.

Variable A : Type.

(** The value most recently supplied for coordinate [i] by a sequence
    of updates (oldest first), if any update supplied one. *)
Fixpoint last_supplied (i : nat) (updates : list (list (option A)))
  : option A :=
  match updates with
  | [] => None
  | u :: later =>
      match last_supplied i later with
      | Some v => Some v
      | None =>
          match nth_error u i with
          | Some (Some v) => Some v
          | _ => None
          end
      end
  end.

Lemma update_position_length (accu update : list (option A)) :
  List.length (update_position accu update)
  = Nat.min (List.length update) (List.length accu).
Proof.
  unfold update_position. now rewrite length_map, length_combine.
Qed.

Lemma update_position_nth (update : list (option A)) :
  forall (accu : list (option A)) (i : nat) (c p : option A),
    nth_error update i = Some c ->
    nth_error accu i = Some p ->
    nth_error (update_position accu update) i
    = Some (match c with Some _ => c | None => p end).
Proof.
  induction update as [|c0 update IH]; intros accu i c p Hc Hp.
  - destruct i; discriminate.
  - destruct accu as [|p0 accu]; [destruct i; discriminate|].
    destruct i as [|i]; simpl in Hc, Hp.
    + injection Hc as <-. injection Hp as <-. reflexivity.
    + exact (IH accu i c p Hc Hp).
Qed.

Lemma fold_update_position_nth (updates : list (list (option A))) :
  forall (seed : list (option A)) (i : nat) (s : option A),
    nth_error seed i = Some s ->
    Forall (fun u => List.length u = List.length seed) updates ->
    nth_error (fold_left update_position updates seed) i
    = Some (match last_supplied i updates with
            | Some v => Some v
            | None => s
            end).
Proof.
  induction updates as [|u later IH]; intros seed i s Hs Hlen.
  - simpl. exact Hs.
  - inversion Hlen as [|u' later' Hu Hlater]; subst.
    assert (Hi : i < List.length u).
    { rewrite Hu. apply nth_error_Some. congruence. }
    destruct (nth_error u i) as [c|] eqn:Hc;
      [|apply nth_error_None in Hc; lia].
    simpl. rewrite Hc.
    rewrite (IH (update_position seed u) i
                (match c with Some _ => c | None => s end)).
    + destruct (last_supplied i later); [reflexivity|].
      destruct c; reflexivity.
    + now apply update_position_nth.
    + rewrite update_position_length, Hu, Nat.min_id.
      exact Hlater.
Qed.

End Aggregator.

(** C6, as stated, fails on the fold the program runs: a coordinate that
    no update supplied is not unset in the aggregate, it holds the 0 of
    the seed [(0, 0)] of [joystick_positions]. *)
Lemma never_supplied_is_zero_not_unset :
  last_supplied 1 [[Some 0.5%float; None]] = None
  /\ nth_error
       (fold_left update_position [[Some 0.5%float; None]]
                  joystick_positions_seed) 1
     = Some (Some 0%float)
  /\ nth_error
       (fold_left update_position [[Some 0.5%float; None]]
                  joystick_positions_seed) 1
     <> Some None.
Proof.
  repeat split. discriminate.
Qed.

(** C6, amended: for every finite sequence of sparse updates folded by
    [update_position] from a seed, each coordinate of the result is the
    value most recently supplied for it, or the seed's value for that
    coordinate (0 in [joystick_positions]) when no update supplied one;
    an update that carries [None] for a coordinate leaves the previous
    value of that coordinate unchanged. *)
Theorem aggregate_is_latest_or_seed (A : Type)
    (seed : list (option A)) (updates : list (list (option A)))
    (i : nat) (s : option A) :
  nth_error seed i = Some s ->
  Forall (fun u => List.length u = List.length seed) updates ->
  nth_error (fold_left update_position updates seed) i
  = Some (match last_supplied i updates with
          | Some v => Some v
          | None => s
          end)
  /\ (forall update,
        nth_error update i = Some None ->
        nth_error (update_position seed update) i = Some s).
Proof.
  intros Hs Hlen. split.
  - now apply fold_update_position_nth.
  - intros update Hu.
    exact (update_position_nth update seed i Hu Hs).
Qed.

Lemma aggregate_is_latest_or_seed_witness :
  nth_error
    (fold_left update_position
       [[Some 0.5%float; None]; [None; None]; [Some 0.25%float; None]]
       joystick_positions_seed) 0
  = Some (Some 0.25%float)
  /\ (forall update,
        nth_error update 0 = Some None ->
        nth_error (update_position joystick_positions_seed update) 0
        = Some (Some 0%float)).
Proof.
  apply (@aggregate_is_latest_or_seed float joystick_positions_seed
           [[Some 0.5%float; None]; [None; None]; [Some 0.25%float; None]]
           0 (Some 0%float)).
  - reflexivity.
  - repeat constructor.
Defined.

(** ** The single-slot mailbox *)

(** What the two threads do to the cell, one critical section at a time:
    the producer stores a target, or the consumer arrives at
    [cv.wait_for]. A consumer that finds the cell empty stays blocked
    and leaves the cell as it is. *)
Inductive mailbox_op : Type :=
| Store (t : target)
| Take.

Definition mailbox_step (cell : mailbox) (op : mailbox_op) : mailbox :=
  match op with
  | Store t => set t cell
  | Take =>
      match takeBlocking cell with
      | Some (_, cell') => cell'
      | None => cell
      end
  end.

Definition mailbox_run (ops : list mailbox_op) (cell : mailbox) : mailbox :=
  fold_left mailbox_step ops cell.

(** The targets a consumer obtains from a cell by taking again and
    again, with no store in between, until it blocks. *)
Fixpoint drain (attempts : nat) (cell : mailbox) : list target :=
  match attempts with
  | O => []
  | S attempts' =>
      match takeBlocking cell with
      | Some (t, cell') => t :: drain attempts' cell'
      | None => []
      end
  end.

Lemma takeBlocking_clears (cell cell' : mailbox) (t : target) :
  takeBlocking cell = Some (t, cell') -> cell = Some t /\ cell' = None.
Proof.
  destruct cell as [t0|]; simpl; [|discriminate].
  intros H. injection H as <- <-. auto.
Qed.

Lemma drain_at_most_one (attempts : nat) (cell : mailbox) :
  List.length (drain attempts cell) <= 1.
Proof.
  destruct attempts as [|n]; simpl; [lia|].
  destruct (takeBlocking cell) as [[t cell']|] eqn:H; simpl; [|lia].
  apply takeBlocking_clears in H. destruct H as [_ ->].
  destruct n; simpl; lia.
Qed.

(** C1: two stores with no take in between leave the second target, and
    only it, to be taken; a take reads and clears the cell in one step,
    so the next take blocks until a new store, whose target it then
    returns; and whatever the two threads did before, a consumer taking
    repeatedly obtains at most one target. *)
Theorem mailbox_overwrite_law :
  (forall (cell : mailbox) (a b : target),
      takeBlocking (set b (set a cell)) = Some (b, None)
      /\ (a <> b ->
          forall cell', takeBlocking (set b (set a cell)) <> Some (a, cell')))
  /\ (forall (cell cell' : mailbox) (t : target),
         takeBlocking cell = Some (t, cell') ->
         takeBlocking cell' = None
         /\ forall c, takeBlocking (set c cell') = Some (c, None))
  /\ (forall (ops : list mailbox_op) (attempts : nat),
         List.length (drain attempts (mailbox_run ops None)) <= 1)
  /\ (forall (ops : list mailbox_op) (a b : target) (attempts : nat),
         drain (S attempts) (mailbox_run (ops ++ [Store a; Store b]) None)
         = [b]).
Proof.
  split; [|split; [|split]].
  - intros cell a b. split; [reflexivity|].
    intros Hab cell' H. simpl in H. injection H as H _. congruence.
  - intros cell cell' t H.
    apply takeBlocking_clears in H. destruct H as [_ ->].
    split; [reflexivity|]. intros c. reflexivity.
  - intros ops attempts. apply drain_at_most_one.
  - intros ops a b attempts. unfold mailbox_run.
    rewrite fold_left_app. simpl. destruct attempts; reflexivity.
Qed.

(** ** The noise floor and the scaling of [move_printer] *)

Lemma SFcompare_swap (x y : spec_float) :
  SFcompare y x = option_map CompOpp (SFcompare x y).
Proof.
  destruct x as [sx|sx| |sx mx ex], y as [sy|sy| |sy my ey]; simpl;
    try reflexivity;
    try (destruct sx; reflexivity);
    try (destruct sy; reflexivity);
    try (destruct sx, sy; reflexivity).
  rewrite (Z.compare_antisym ex ey).
  destruct sx, sy; simpl; try reflexivity;
    destruct (ex ?= ey)%Z; simpl; try reflexivity.
  - now rewrite (Pos.compare_cont_antisym mx my Eq).
  - now rewrite (Pos.compare_cont_antisym mx my Eq).
Qed.

(** On binary64 numbers, [x <= y] excludes [y < x]. *)
Lemma leb_not_gt (x y : float) :
  (x <=? y)%float = true -> (y <? x)%float = false.
Proof.
  rewrite leb_spec, ltb_spec. unfold SFleb, SFltb.
  rewrite (SFcompare_swap (Prim2SF x) (Prim2SF y)).
  destruct (SFcompare (Prim2SF x) (Prim2SF y)) as [[ | | ]|]; simpl;
    congruence.
Qed.

Lemma SFmul_same_sign_not_negative_zero (p : spec_float) :
  SFmul prec emax p p <> S754_zero true.
Proof.
  destruct p as [[|]|[|]| |s m e]; simpl; try discriminate.
  replace (xorb s s) with false by (destruct s; reflexivity).
  unfold binary_round, binary_round_aux.
  repeat match goal with
         | |- context [match ?t with pair _ _ => _ end] => destruct t
         end.
  match goal with
  | |- context [match shr_m ?r with _ => _ end] => destruct (shr_m r)
  end; try discriminate.
  match goal with
  | |- context [if ?c then _ else _] => destruct c
  end; discriminate.
Qed.

(** A fused multiply-add onto zero is the rounded product. *)
Lemma fma_square_zero (x : float) : fma x x 0 = (x * x)%float.
Proof.
  unfold fma. change (Prim2SF 0) with (S754_zero false).
  rewrite <- (SF2Prim_Prim2SF (x * x)), mul_spec.
  pose proof (SFmul_same_sign_not_negative_zero (Prim2SF x)) as Hz.
  unfold SF64mul.
  assert (Hadd : SFadd prec emax (SFmul prec emax (Prim2SF x) (Prim2SF x))
                       (S754_zero false)
                 = SFmul prec emax (Prim2SF x) (Prim2SF x)).
  { destruct (SFmul prec emax (Prim2SF x) (Prim2SF x)) as [[|]|[|]| |s m e];
      try reflexivity. contradiction. }
  destruct (Prim2SF x) as [sx|sx| |sx mx ex]; exact (f_equal SF2Prim Hadd).
Qed.

(** The norm of a pair: the first square rounded, the second square
    added to it by one fused multiply-add, and the square root. *)
Lemma norm_pair (x y : float) :
  norm [x; y] = PrimFloat.sqrt (fma y y (x * x)%float).
Proof.
  unfold norm. simpl. now rewrite fma_square_zero.
Qed.

(** C5: for a complete vector [(x, y)], a norm at most [MIN_NORM] leaves
    the mailbox as it was, and a norm above [MIN_NORM] stores exactly
    the vector scaled by [MAX_REACH]. The norm is the Euclidean one as
    numpy computes it in binary64, the square root of the sum of the
    two squares accumulated by fused multiply-add: it is 5 for (3, 4);
    (0.15, 0.15), of norm 0.2121.., is stored although neither component
    exceeds the floor; (0.12, 0.12), of norm 0.1697.., is dropped
    although the components add up to more than the floor; and
    (0.12, 0.16), whose norm is exactly [MIN_NORM], is dropped. *)
Theorem move_printer_threshold (x y : float) (cell : mailbox) :
  ((norm [x; y] <=? MIN_NORM)%float = true ->
   move_printer [Some x; Some y] cell = Ok cell)
  /\ ((MIN_NORM <? norm [x; y])%float = true ->
      move_printer [Some x; Some y] cell
      = Ok (Some ((x * MAX_REACH)%float, (y * MAX_REACH)%float)))
  /\ norm [x; y] = PrimFloat.sqrt (fma y y (x * x)%float)
  /\ norm [3%float; 4%float] = 5%float
  /\ norm [(-3)%float; (-4)%float] = 5%float
  /\ move_printer [Some 0.15%float; Some 0.15%float] cell
     = Ok (Some ((0.15 * MAX_REACH)%float, (0.15 * MAX_REACH)%float))
  /\ move_printer [Some 0.12%float; Some 0.12%float] cell = Ok cell
  /\ norm [0.12%float; 0.16%float] = MIN_NORM
  /\ move_printer [Some 0.12%float; Some 0.16%float] cell = Ok cell.
Proof.
  split; [|split; [|split; [apply norm_pair|]]].
  - unfold move_printer. cbn [as_floats]. intros H.
    now rewrite (leb_not_gt H).
  - unfold move_printer. cbn [as_floats]. intros H. now rewrite H.
  - repeat split; vm_compute; reflexivity.
Qed.

(** At the noise floor the fused sum decides: for this vector the two
    squares rounded one after the other add up to a norm of exactly
    [MIN_NORM], the fused sum to the next number above it, and the
    vector is stored. *)
Example fused_norm_above_floor :
  PrimFloat.sqrt
    ((-0.18496174991638847) * (-0.18496174991638847)
     + 0.07608647099102035 * 0.07608647099102035)%float = MIN_NORM
  /\ (MIN_NORM <? norm [(-0.18496174991638847)%float;
                        0.07608647099102035%float])%float = true
  /\ move_printer [Some (-0.18496174991638847)%float;
                   Some 0.07608647099102035%float] None
     = Ok (Some (((-0.18496174991638847) * MAX_REACH)%float,
                 (0.07608647099102035 * MAX_REACH)%float)).
Proof. vm_compute. auto. Qed.

(** The two end-to-end scenarios of the specification, at the sampler:
    (0.5, -0.5) is stored as (0.1, -0.1), and (0.1, 0.1) is dropped. *)
Example move_printer_above_floor :
  move_printer [Some 0.5%float; Some (-0.5)%float] None
  = Ok (Some (0.1%float, (-0.1)%float)).
Proof. vm_compute. reflexivity. Qed.

Example move_printer_below_floor :
  move_printer [Some 0.1%float; Some 0.1%float] None = Ok None.
Proof. vm_compute. reflexivity. Qed.

(** ** The actuation loop and the serial port *)

Definition succeeded (c : tty_call * bool) : Prop := snd c = true.

(** How a result and the calls made for it fit together: a returned
    result has seen every call succeed; a raised one is the serial
    failure of the last call made, all earlier calls having succeeded. *)
Definition propagated {A} (r : result A) (calls : tty_log) : Prop :=
  match r with
  | Ok _ => Forall succeeded calls
  | Raise e =>
      e = SerialException
      /\ exists before c,
           calls = (before ++ [(c, false)])%list /\ Forall succeeded before
  end.

(** The log records what the device did: the call at position [i] of
    the port's history succeeded exactly when the device says so. *)
Definition faithful (tty : device) (log calls : tty_log) : Prop :=
  forall i c, nth_error calls i = Some c ->
              snd c = io_ok tty (List.length log + i).

Lemma faithful_app (tty : device) (log c1 c2 : tty_log) :
  faithful tty log c1 -> faithful tty (log ++ c1)%list c2 ->
  faithful tty log (c1 ++ c2)%list.
Proof.
  intros H1 H2 i c Hi.
  destruct (Nat.lt_ge_cases i (List.length c1)) as [Hlt|Hge].
  - rewrite nth_error_app1 in Hi by exact Hlt. now apply H1.
  - rewrite nth_error_app2 in Hi by exact Hge.
    rewrite (H2 _ _ Hi), length_app. f_equal. lia.
Qed.

Definition io_spec {A} (tty : device) (m : io A) : Prop :=
  forall log, exists calls,
    snd (m log) = (log ++ calls)%list
    /\ propagated (fst (m log)) calls
    /\ faithful tty log calls.

Lemma io_spec_ret {A} (tty : device) (a : A) : io_spec tty (ret a).
Proof.
  intros log. exists []. simpl. rewrite app_nil_r.
  split; [reflexivity|]. split; [constructor|].
  intros [|i] c; discriminate.
Qed.

Lemma io_spec_call {A} (tty : device) (c : tty_call) (answer : nat -> A) :
  io_spec tty (call tty c answer).
Proof.
  intros log. unfold call.
  destruct (io_ok tty (List.length log)) eqn:Hok; simpl.
  - exists [(c, true)]. split; [reflexivity|].
    split; [repeat constructor|].
    intros [|[|i]] c0; try discriminate.
    intros [= <-]. now rewrite Nat.add_0_r.
  - exists [(c, false)]. split; [reflexivity|]. split.
    + split; [reflexivity|].
      exists [], c. split; [reflexivity|constructor].
    + intros [|[|i]] c0; try discriminate.
      intros [= <-]. now rewrite Nat.add_0_r.
Qed.

Lemma io_spec_bind {A B} (tty : device) (m : io A) (f : A -> io B) :
  io_spec tty m -> (forall a, io_spec tty (f a)) -> io_spec tty (bind m f).
Proof.
  intros Hm Hf log. unfold bind.
  destruct (Hm log) as (c1 & Hlog1 & Hr1 & Hf1).
  destruct (m log) as [[a|e] log1]; simpl in *; subst log1.
  - destruct (Hf a (log ++ c1)%list) as (c2 & Hlog2 & Hr2 & Hf2).
    exists (c1 ++ c2)%list. rewrite app_assoc. split; [exact Hlog2|].
    split; [|now apply faithful_app].
    destruct (fst (f a (log ++ c1)%list)) as [b|e]; simpl in *.
    + apply Forall_app. auto.
    + destruct Hr2 as (-> & before & c & -> & Hbefore).
      split; [reflexivity|].
      exists (c1 ++ before)%list, c. rewrite app_assoc.
      split; [reflexivity|]. apply Forall_app. auto.
  - exists c1. auto.
Qed.

Lemma io_spec_send_gcode (tty : device) (s : string) :
  io_spec tty (send_gcode tty s).
Proof.
  unfold send_gcode, flushInput, write, readline.
  repeat (apply io_spec_bind; [apply io_spec_call|intros ?]).
  apply io_spec_ret.
Qed.

Lemma io_spec_activation (tty : device) (t : target) :
  io_spec tty (activation tty t).
Proof.
  destruct t as [dx dy]. unfold activation.
  repeat (apply io_spec_bind; [apply io_spec_send_gcode|intros ?]).
  apply io_spec_ret.
Qed.

(** C9: whatever the device does, a run of the actuation loop either is
    still waiting, every call on the port having succeeded, or has been
    terminated by the serial failure, and then the failed call is the
    last call the loop made: it is not repeated and no further line is
    sent, whatever the producer stores afterwards. The calls recorded
    succeed or fail as the device decides. *)
Theorem serial_failure_is_fatal (tty : device)
    (schedule : list (list target)) (cell : mailbox) (log : tty_log) :
  exists calls,
    snd (execute_move tty schedule cell log) = (log ++ calls)%list
    /\ faithful tty log calls
    /\ ((fst (fst (execute_move tty schedule cell log)) = Waiting
         /\ Forall succeeded calls)
        \/ (fst (fst (execute_move tty schedule cell log))
            = Terminated SerialException
            /\ exists before c,
                 calls = (before ++ [(c, false)])%list
                 /\ Forall succeeded before)).
Proof.
  revert cell log.
  induction schedule as [|stored schedule IH]; intros cell log.
  - exists []. simpl. rewrite app_nil_r. split; [reflexivity|].
    split; [intros [|i] c; discriminate|].
    left. split; constructor.
  - simpl.
    destruct (takeBlocking (fold_left (fun np t => set t np) stored cell))
      as [[t cell']|]; [|apply IH].
    destruct (io_spec_activation tty t log) as (c1 & Hlog1 & Hr1 & Hf1).
    destruct (activation tty t log) as [[u|e] log1]; simpl in *; subst log1.
    + destruct (IH cell' (log ++ c1)%list) as (c2 & Hlog2 & Hf2 & Hr2).
      exists (c1 ++ c2)%list. rewrite app_assoc. split; [exact Hlog2|].
      split; [now apply faithful_app|].
      destruct Hr2 as [[Hw Hok]|(Ht & before & c & -> & Hbefore)].
      * left. split; [exact Hw|]. apply Forall_app. auto.
      * right. split; [exact Ht|].
        exists (c1 ++ before)%list, c. rewrite app_assoc.
        split; [reflexivity|]. apply Forall_app. auto.
    + destruct Hr1 as (-> & before & c & -> & Hbefore).
      exists (before ++ [(c, false)])%list. split; [reflexivity|].
      split; [exact Hf1|].
      right. split; [reflexivity|]. exists before, c. auto.
Qed.

Lemma call_succeeds {A} (tty : device) (c : tty_call) (answer : nat -> A)
    (log : tty_log) :
  io_ok tty (List.length log) = true ->
  call tty c answer log
  = (Ok (answer (List.length log)), (log ++ [(c, true)])%list).
Proof.
  intros H. unfold call. now rewrite H.
Qed.

Lemma send_gcode_succeeds (tty : device) (s : string) (log : tty_log) :
  (forall n, List.length log <= n < List.length log + 3 ->
             io_ok tty n = true) ->
  send_gcode tty s log
  = (Ok (strip (reply tty (List.length log + 2))),
     (log ++ [(FlushInput, true); (Write (s ++ newline), true);
              (ReadLine, true)])%list).
Proof.
  intros H. unfold send_gcode, bind, flushInput, write, readline, ret.
  rewrite call_succeeds by (apply H; lia).
  rewrite call_succeeds by (apply H; rewrite length_app; simpl; lia).
  rewrite call_succeeds
    by (apply H; rewrite !length_app; simpl; lia).
  rewrite !length_app. simpl List.length.
  rewrite <- !app_assoc. simpl.
  now replace (List.length log + 1 + 1) with (List.length log + 2) by lia.
Qed.

(** A device on which every call succeeds and that answers [ok]. *)
Definition obliging_device : device :=
  {| io_ok := fun _ => true; reply := fun _ => ("ok" ++ newline)%string |}.

(** C4: an activation that consumes the target [(dx, dy)] makes six
    calls on the port, in this order: flush, write of [G91], read of one
    line, flush, write of the move directive, read of one line; the loop
    is then waiting again with the cell empty. The move directive is
    [G1 X], [dx] with three decimals, [ Y], the negated [dy] with three
    decimals, [ F400]; for the target (0.1, -0.1) it is
    [G1 X0.100 Y0.100 F400]. *)
Theorem activation_sends_two_lines (tty : device) (stored : list target)
    (dx dy : float) (cell : mailbox) (log : tty_log) :
  (forall n, List.length log <= n < List.length log + 6 ->
             io_ok tty n = true) ->
  execute_move tty [(stored ++ [(dx, dy)])%list] cell log
  = (Waiting, None,
     (log ++ [(FlushInput, true);
              (Write ("G91" ++ newline), true);
              (ReadLine, true);
              (FlushInput, true);
              (Write (move_directive dx dy ++ newline), true);
              (ReadLine, true)])%list)
  /\ move_directive dx dy
     = ("G1 X" ++ format_3f dx ++ " Y" ++ format_3f (- dy)%float
        ++ " F400")%string
  /\ move_directive 0.1%float (-0.1)%float = "G1 X0.100 Y0.100 F400"%string.
Proof.
  intros H. split; [|split; reflexivity].
  simpl. rewrite fold_left_app. simpl.
  unfold activation, bind, ret.
  rewrite send_gcode_succeeds by (intros n Hn; apply H; lia).
  rewrite send_gcode_succeeds
    by (intros n Hn; apply H; rewrite length_app in Hn; simpl in Hn; lia).
  rewrite <- app_assoc. reflexivity.
Qed.

Lemma activation_sends_two_lines_witness :
  execute_move obliging_device [[(0.1%float, (-0.1)%float)]] None []
  = (Waiting, None,
     [(FlushInput, true);
      (Write ("G91" ++ newline), true);
      (ReadLine, true);
      (FlushInput, true);
      (Write ("G1 X0.100 Y0.100 F400" ++ newline), true);
      (ReadLine, true)])
  /\ move_directive 0.1%float (-0.1)%float
     = ("G1 X" ++ format_3f 0.1%float ++ " Y"
        ++ format_3f (- (-0.1))%float ++ " F400")%string
  /\ move_directive 0.1%float (-0.1)%float = "G1 X0.100 Y0.100 F400"%string.
Proof.
  apply (@activation_sends_two_lines obliging_device []
           0.1%float (-0.1)%float None []).
  intros n Hn. reflexivity.
Defined.

(** A device whose fifth call fails: the write of the move directive
    raises, the loop ends there, and the target stored next is never
    acted upon. *)
Example failing_write_ends_the_loop :
  execute_move
    {| io_ok := fun n => negb (Nat.eqb n 4); reply := fun _ => newline |}
    [[(0.1%float, (-0.1)%float)]; [(0.1%float, 0.1%float)]] None []
  = (Terminated SerialException, None,
     [(FlushInput, true);
      (Write ("G91" ++ newline), true);
      (ReadLine, true);
      (FlushInput, true);
      (Write ("G1 X0.100 Y0.100 F400" ++ newline), false)]).
Proof. vm_compute. reflexivity. Qed.

(** ** The subscription: what reaches [move_printer] *)

Definition complete_pair (pos : list (option float)) : bool :=
  match pos with
  | [Some _; Some _] => true
  | _ => false
  end.

Lemma complete_pair_all_not_None (pos : list (option float)) :
  complete_pair pos = true -> all_not_None pos = true.
Proof.
  destruct pos as [|[x|] [|[y|] [|z pos]]]; try discriminate. reflexivity.
Qed.

Lemma move_printer_complete (pos : list (option float)) (cell : mailbox) :
  complete_pair pos = true -> exists cell', move_printer pos cell = Ok cell'.
Proof.
  destruct pos as [|[x|] [|[y|] [|z pos]]]; try discriminate. intros _.
  unfold move_printer. cbn [as_floats].
  destruct (MIN_NORM <? norm [x; y])%float; simpl; eauto.
Qed.

Lemma axis_update_shape (r : PollResult) (update : list (option float)) :
  axis_update (Some r) = Ok update ->
  exists x y, update = [x; y]
              /\ (y <> None ->
                  exists a, changed_axis r = Some a /\ number a = 1%Z).
Proof.
  unfold axis_update. intros H. injection H as <-.
  destruct (changed_axis r) as [a|].
  - destruct (Z.eqb_spec (number a) 0).
    + exists (Some (fvalue a)), None. split; [reflexivity|]. congruence.
    + destruct (Z.eqb_spec (number a) 1).
      * exists None, (Some (fvalue a)). split; [reflexivity|]. eauto.
      * exists None, None. split; [reflexivity|]. congruence.
  - exists None, None. split; [reflexivity|]. congruence.
Qed.

Lemma update_position_complete (accu update : list (option float))
    (x y : option float) :
  complete_pair accu = true -> update = [x; y] ->
  complete_pair (update_position accu update) = true.
Proof.
  destruct accu as [|[a|] [|[b|] [|c accu]]]; try discriminate.
  intros _ ->. destruct x, y; reflexivity.
Qed.

(** An event that is not an update of axis 1, whatever the state of the
    stick. *)
Definition no_y_update (ev : timer_event) : Prop :=
  match ev with
  | PollTick evbuf =>
      forall st a, polled_axis st evbuf = Some a -> number a <> 1%Z
  | CommandTick => True
  end.

Definition y_is_zero (pos : list (option float)) : Prop :=
  exists x, pos = [Some x; Some 0%float].

Section Invariant.

(** A property of positions that every update of the events at hand
    preserves. *)
Variable P : list (option float) -> Prop.
Variable allowed : timer_event -> Prop.

Hypothesis P_update :
  forall evbuf st st' update accu,
    allowed (PollTick evbuf) ->
    poll_joystick st evbuf = (Ok update, st') ->
    P accu -> P (update_position accu update).

Definition holds (s : pipeline) : Prop :=
  P (accu s)
  /\ (forall pos, latest_position s = Some pos -> P pos)
  /\ Forall (fun c => P (snd c)) (forwarded s).

Lemma holds_on_next (tick : Z) (pos : list (option float)) (s : pipeline) :
  P pos -> holds s -> holds (on_next tick pos s).
Proof.
  intros Hpos (Ha & Hl & Hf). unfold on_next.
  destruct (move_printer pos (new_position s)); (split; [|split]); simpl;
    auto; apply Forall_app; split; auto.
Qed.

Lemma holds_step (s : pipeline) (ev : timer_event) :
  allowed ev -> holds s -> holds (step s ev).
Proof.
  intros Hev Hs. unfold step.
  destruct (failure s); [exact Hs|].
  destruct Hs as (Ha & Hl & Hf).
  destruct ev as [evbuf|].
  - unfold on_poll.
    destruct (poll_joystick (in_stick s) evbuf) as [[update|e] st] eqn:Hp.
    + assert (Hpos : P (update_position (accu s) update))
        by (eapply P_update; eauto).
      destruct (all_not_None (update_position (accu s) update)).
      * destruct (latest_tick s) as [tick|].
        -- apply holds_on_next; [exact Hpos|].
           split; [|split]; simpl; auto. intros pos [= <-]. exact Hpos.
        -- split; [|split]; simpl; auto. intros pos [= <-]. exact Hpos.
      * split; [|split]; simpl; auto.
    + split; [|split]; simpl; auto.
  - unfold on_command_tick.
    destruct (latest_position s) as [pos|] eqn:Hlp.
    + apply holds_on_next; [now apply Hl|].
      split; [|split]; simpl; auto.
    + split; [|split]; simpl; auto.
Qed.

Lemma holds_run (evs : list timer_event) :
  forall s, Forall allowed evs -> holds s -> holds (run s evs).
Proof.
  induction evs as [|ev evs IH]; intros s Hall Hs; [exact Hs|].
  inversion Hall; subst. simpl. apply IH; [assumption|].
  now apply holds_step.
Qed.

End Invariant.

Lemma poll_joystick_shape (st st' : JoystickState)
    (evbuf : list Byte.byte) (update : list (option float)) :
  poll_joystick st evbuf = (Ok update, st') ->
  exists x y, update = [x; y]
              /\ (y <> None ->
                  exists a, polled_axis st evbuf = Some a
                            /\ number a = 1%Z).
Proof.
  intros H.
  destruct (poll_joystick_returns _ _ H) as (r & _ & Hpa & Hup).
  destruct (axis_update_shape Hup) as (x & y & Hu & Hy).
  exists x, y. split; [exact Hu|]. now rewrite Hpa.
Qed.

Lemma complete_pair_preserved (evbuf : list Byte.byte)
    (st st' : JoystickState) (update accu : list (option float)) :
  True ->
  poll_joystick st evbuf = (Ok update, st') ->
  complete_pair accu = true ->
  complete_pair (update_position accu update) = true.
Proof.
  intros _ H Ha.
  destruct (poll_joystick_shape _ _ H) as (x & y & Hu & _).
  exact (update_position_complete _ Ha Hu).
Qed.

Lemma y_is_zero_preserved (evbuf : list Byte.byte)
    (st st' : JoystickState) (update accu : list (option float)) :
  no_y_update (PollTick evbuf) ->
  poll_joystick st evbuf = (Ok update, st') ->
  y_is_zero accu -> y_is_zero (update_position accu update).
Proof.
  intros Hno H [a ->].
  destruct (poll_joystick_shape _ _ H) as (x & y & -> & Hy).
  destruct y as [y|].
  - destruct Hy as (c & Hc & Hn); [discriminate|].
    exfalso. exact (Hno st c Hc Hn).
  - destruct x as [x|]; [exists x|exists a]; reflexivity.
Qed.

Lemma subscribe_complete (stick : JoystickState) :
  holds (fun pos => complete_pair pos = true) (subscribe stick).
Proof.
  split; [reflexivity|]. split; [discriminate|constructor].
Qed.

Lemma subscribe_y_is_zero (stick : JoystickState) :
  holds y_is_zero (subscribe stick).
Proof.
  split; [now exists 0%float|]. split; [discriminate|constructor].
Qed.

Lemma x_half_no_y_update : no_y_update (PollTick x_half).
Proof.
  intros st a H.
  destruct (polled_axis_event _ _ H) as (ev & Hev & Hn & _).
  vm_compute in Hev. injection Hev as <-. rewrite Hn. discriminate.
Qed.

(** C2, as stated, fails: an input with one update of axis 0 and none
    of axis 1, followed by a command tick, calls [move_printer] with
    (x, 0) and leaves a target in the mailbox. *)
Lemma x_only_input_is_forwarded :
  Forall no_y_update [PollTick x_half; CommandTick]
  /\ forwarded (run (subscribe example_stick) [PollTick x_half; CommandTick])
     = [(0%Z, [Some (normalize 16384); Some 0%float])]
  /\ new_position
       (run (subscribe example_stick) [PollTick x_half; CommandTick])
     = Some ((normalize 16384 * MAX_REACH)%float, (0 * MAX_REACH)%float).
Proof.
  split; [|split; vm_compute; reflexivity].
  repeat constructor. exact x_half_no_y_update.
Qed.

(** C2, amended: every vector the subscription hands to [move_printer]
    has both coordinates set; because the fold starts from (0, 0), a
    coordinate that no update supplied is 0, not unset, so an input
    without any update of axis 1 is forwarded as well, each candidate
    then having 0 as its second coordinate. *)
Theorem forwarded_are_complete (stick : JoystickState)
    (evs : list timer_event) :
  (forall c, In c (forwarded (run (subscribe stick) evs)) ->
             complete_pair (snd c) = true)
  /\ (Forall no_y_update evs ->
      forall c, In c (forwarded (run (subscribe stick) evs)) ->
                y_is_zero (snd c)).
Proof.
  split.
  - assert (H : holds (fun pos => complete_pair pos = true)
                      (run (subscribe stick) evs)).
    { apply holds_run with (allowed := fun _ => True).
      - exact complete_pair_preserved.
      - apply Forall_forall. auto.
      - apply subscribe_complete. }
    destruct H as (_ & _ & H). rewrite Forall_forall in H. exact H.
  - intros Hall.
    assert (H : holds y_is_zero (run (subscribe stick) evs)).
    { apply holds_run with (allowed := no_y_update).
      - exact y_is_zero_preserved.
      - exact Hall.
      - apply subscribe_y_is_zero. }
    destruct H as (_ & _ & H). rewrite Forall_forall in H. exact H.
Qed.

(** ** The subscription: how often [move_printer] is called *)

(** The candidates forwarded while [tick] was the latest command tick. *)
Definition candidates_in_period (tick : Z) (s : pipeline) : nat :=
  List.length (filter (fun c => (fst c =? tick)%Z) (forwarded s)).

(** Both sides of [combine_latest] can emit: the aggregate is a complete
    pair and so is the latest position it remembers. *)
Definition ready (s : pipeline) : bool :=
  complete_pair (accu s)
  && match latest_position s with
     | Some pos => complete_pair pos
     | None => false
     end.

Definition next_tick (s : pipeline) : Z :=
  match latest_tick s with Some n => (n + 1)%Z | None => 0%Z end.

Lemma run_failed (evs : list timer_event) (s : pipeline) (e : exn) :
  failure s = Some e -> run s evs = s.
Proof.
  intros H. induction evs as [|ev evs IH]; [reflexivity|].
  assert (Hstep : step s ev = s) by (unfold step; now rewrite H).
  unfold run in *. simpl. now rewrite Hstep.
Qed.

Lemma run_alive (evs : list timer_event) (s : pipeline) :
  failure (run s evs) = None -> failure s = None.
Proof.
  intros H. destruct (failure s) as [e|] eqn:Hs; [|reflexivity].
  rewrite (run_failed evs s Hs) in H. congruence.
Qed.

Lemma on_next_forwards (tick : Z) (pos : list (option float))
    (s : pipeline) :
  forwarded (on_next tick pos s) = (forwarded s ++ [(tick, pos)])%list
  /\ accu (on_next tick pos s) = accu s
  /\ latest_position (on_next tick pos s) = latest_position s
  /\ latest_tick (on_next tick pos s) = latest_tick s.
Proof.
  unfold on_next. destruct (move_printer pos (new_position s)); simpl; auto.
Qed.

Lemma command_tick_forwards (s : pipeline) :
  ready s = true -> failure s = None ->
  exists pos,
    forwarded (step s CommandTick)
    = (forwarded s ++ [(next_tick s, pos)])%list
    /\ ready (step s CommandTick) = true
    /\ latest_tick (step s CommandTick) = Some (next_tick s).
Proof.
  intros Hr Hf. unfold step. rewrite Hf. unfold on_command_tick.
  unfold ready in Hr. apply andb_prop in Hr. destruct Hr as [Ha Hl].
  destruct (latest_position s) as [pos|] eqn:Hlp; [|discriminate].
  fold (next_tick s).
  match goal with |- context [on_next ?t ?p ?s'] =>
    destruct (on_next_forwards t p s') as (H1 & H2 & H3 & H4) end.
  exists pos. rewrite H1. unfold ready. rewrite H2, H3, H4. simpl.
  rewrite Ha, Hl. auto.
Qed.

Lemma poll_tick_forwards (s : pipeline) (evbuf : list Byte.byte)
    (tick : Z) :
  ready s = true -> latest_tick s = Some tick ->
  failure (step s (PollTick evbuf)) = None ->
  exists pos,
    forwarded (step s (PollTick evbuf))
    = (forwarded s ++ [(tick, pos)])%list
    /\ ready (step s (PollTick evbuf)) = true
    /\ latest_tick (step s (PollTick evbuf)) = Some tick.
Proof.
  intros Hr Ht Halive.
  assert (Hf : failure s = None).
  { apply (run_alive [PollTick evbuf]). exact Halive. }
  revert Halive. unfold step. rewrite Hf. unfold on_poll.
  unfold ready in Hr. apply andb_prop in Hr. destruct Hr as [Ha Hl].
  destruct (poll_joystick (in_stick s) evbuf) as [[update|e] st] eqn:Hp;
    [|discriminate].
  intros _.
  destruct (poll_joystick_shape _ _ Hp) as (x & y & Hu & _).
  pose proof (update_position_complete _ Ha Hu) as Hpos.
  rewrite (complete_pair_all_not_None _ Hpos), Ht.
  match goal with |- context [on_next ?t ?p ?s'] =>
    destruct (on_next_forwards t p s') as (H1 & H2 & H3 & H4) end.
  exists (update_position (accu s) update).
  rewrite H1. unfold ready. rewrite H2, H3, H4. simpl.
  rewrite Hpos. auto.
Qed.

Lemma polls_forward (bufs : list (list Byte.byte)) :
  forall (s : pipeline) (tick : Z),
    ready s = true -> latest_tick s = Some tick ->
    failure (run s (map PollTick bufs)) = None ->
    exists new,
      forwarded (run s (map PollTick bufs)) = (forwarded s ++ new)%list
      /\ List.length new = List.length bufs
      /\ Forall (fun c => fst c = tick) new.
Proof.
  induction bufs as [|evbuf bufs IH]; intros s tick Hr Ht Halive.
  - exists []. simpl. rewrite app_nil_r. repeat split. constructor.
  - simpl in *.
    assert (Hstep : failure (step s (PollTick evbuf)) = None)
      by exact (run_alive _ _ Halive).
    destruct (poll_tick_forwards s evbuf Hr Ht Hstep)
      as (pos & Hfw & Hr' & Ht').
    destruct (IH _ tick Hr' Ht' Halive) as (new & Hnew & Hlen & Hall).
    exists ((tick, pos) :: new). rewrite Hnew, Hfw, <- app_assoc.
    split; [reflexivity|]. split; [simpl; now rewrite Hlen|].
    constructor; [reflexivity|exact Hall].
Qed.

(** C3, as stated, fails: after a single command tick, two further polls
    forward two further candidates, three in that one period. *)
Lemma three_candidates_in_one_period :
  candidates_in_period 0
    (run (subscribe example_stick)
         [PollTick x_half; CommandTick; PollTick x_half; PollTick x_half])
  = 3
  /\ latest_tick
       (run (subscribe example_stick)
            [PollTick x_half; CommandTick; PollTick x_half; PollTick x_half])
     = Some 0%Z.
Proof. vm_compute. auto. Qed.

(** C3, amended: once an aggregate exists, a command tick forwards one
    candidate and every poll that follows it within the period forwards
    one more (as long as nothing raises): a period with k polls carries
    1 + k candidates, so the number of candidates per period is set by
    the polling rate, not capped by the command cadence. *)
Theorem candidates_per_period (s : pipeline)
    (bufs : list (list Byte.byte)) :
  ready s = true ->
  failure (run s (CommandTick :: map PollTick bufs)) = None ->
  exists new,
    forwarded (run s (CommandTick :: map PollTick bufs))
    = (forwarded s ++ new)%list
    /\ List.length new = 1 + List.length bufs
    /\ Forall (fun c => fst c = next_tick s) new.
Proof.
  intros Hr Halive.
  assert (Hf : failure s = None) by exact (run_alive _ _ Halive).
  destruct (command_tick_forwards s Hr Hf) as (pos & Hfw & Hr' & Ht').
  change (run s (CommandTick :: map PollTick bufs))
    with (run (step s CommandTick) (map PollTick bufs)) in *.
  destruct (polls_forward bufs _ Hr' Ht' Halive)
    as (new & Hnew & Hlen & Hall).
  exists ((next_tick s, pos) :: new). rewrite Hnew, Hfw, <- app_assoc.
  split; [reflexivity|]. split; [simpl; now rewrite Hlen|].
  constructor; [reflexivity|exact Hall].
Qed.

Lemma candidates_per_period_witness :
  exists new,
    forwarded
      (run (run (subscribe example_stick) [PollTick x_half])
           (CommandTick :: map PollTick [x_half; y_half]))
    = (forwarded (run (subscribe example_stick) [PollTick x_half])
       ++ new)%list
    /\ List.length new = 3
    /\ Forall (fun c => fst c = 0%Z) new.
Proof.
  apply (@candidates_per_period
           (run (subscribe example_stick) [PollTick x_half])
           [x_half; y_half]).
  - vm_compute. reflexivity.
  - vm_compute. reflexivity.
Defined.

(** * Further properties of the code *)

(** ** [update_position]: how updates compose *)

Lemma update_position_cons (A : Type) (c p : option A)
    (update accu : list (option A)) :
  update_position (p :: accu) (c :: update)
  = (match c with Some _ => c | None => p end)
      :: update_position accu update.
Proof. reflexivity. Qed.

(** X1: applying one update and then another gives the same aggregate as
    applying once the second update merged over the first; and an update
    that carries [None] everywhere leaves the aggregate as it is. *)
Theorem update_position_composes (A : Type) :
  (forall accu u1 u2 : list (option A),
      update_position (update_position accu u1) u2
      = update_position accu (update_position u1 u2))
  /\ (forall accu : list (option A),
         update_position accu (map (fun _ => None) accu) = accu).
Proof.
  split.
  - intros accu u1 u2. revert accu u1.
    induction u2 as [|c2 u2 IH]; intros accu u1; [reflexivity|].
    destruct u1 as [|c1 u1]; [reflexivity|].
    destruct accu as [|p accu]; [reflexivity|].
    rewrite !update_position_cons, IH.
    destruct c2, c1; reflexivity.
  - intros l. induction l as [|p l IH]; [reflexivity|].
    simpl map. rewrite update_position_cons, IH. reflexivity.
Qed.

(** ** [Joystick.poll]: outcomes and state *)

(** The value a dict holds for a key, if it has the key. *)
Fixpoint dict_get {V} (k : string) (d : list (string * V)) : option V :=
  match d with
  | [] => None
  | (k', v) :: d' => if String.eqb k k' then Some v else dict_get k d'
  end.

Definition keys {V} (d : list (string * V)) : list string := map fst d.

Lemma dict_get_set_same {V} (k : string) (v : V) (d : list (string * V)) :
  dict_get k (dict_set k v d) = Some v.
Proof.
  induction d as [|[k' v'] d IH]; simpl.
  - now rewrite String.eqb_refl.
  - destruct (String.eqb k k') eqn:E; simpl.
    + now rewrite String.eqb_refl.
    + now rewrite E.
Qed.

Lemma dict_get_set_other {V} (k k0 : string) (v : V)
    (d : list (string * V)) :
  k0 <> k -> dict_get k0 (dict_set k v d) = dict_get k0 d.
Proof.
  intros Hne. induction d as [|[k' v'] d IH]; simpl.
  - destruct (String.eqb_spec k0 k); [contradiction|reflexivity].
  - destruct (String.eqb_spec k k') as [->|Hk]; simpl.
    + destruct (String.eqb_spec k0 k'); [contradiction|reflexivity].
    + destruct (String.eqb k0 k'); [reflexivity|exact IH].
Qed.

Lemma keys_set_present {V} (k : string) (v : V) (d : list (string * V)) :
  In k (keys d) -> keys (dict_set k v d) = keys d.
Proof.
  induction d as [|[k' v'] d IH]; simpl; [contradiction|].
  intros [->|Hin].
  - now rewrite String.eqb_refl.
  - destruct (String.eqb_spec k k') as [->|Hk]; simpl; [reflexivity|].
    now rewrite (IH Hin).
Qed.

Lemma keys_set_nodup {V} (k : string) (v : V) (d : list (string * V)) :
  NoDup (keys d) ->
  NoDup (keys (dict_set k v d))
  /\ (forall k0, In k0 (keys (dict_set k v d)) <-> k0 = k \/ In k0 (keys d)).
Proof.
  induction d as [|[k' v'] d IH]; simpl; intros Hnd.
  - split; [repeat constructor; auto|]. intros k0. intuition.
  - inversion Hnd as [|? ? Hnotin Hnd']; subst.
    destruct (String.eqb_spec k k') as [->|Hk]; simpl.
    + split; [exact Hnd|]. intros k0. intuition.
    + destruct (IH Hnd') as [IH1 IH2]. split.
      * constructor; [|exact IH1]. intros Hin. apply IH2 in Hin.
        destruct Hin as [Heq|Hin]; [congruence|contradiction].
      * intros k0. rewrite IH2. intuition.
Qed.

Definition button_bit (ev : Event) : bool :=
  truthy_int (Z.land (ev_type ev) 1).
Definition axis_bit (ev : Event) : bool :=
  truthy_int (Z.land (ev_type ev) 2).

Lemma unpack_IhBB_length (evbuf : list Byte.byte) :
  match unpack_IhBB evbuf with
  | Ok _ => List.length evbuf = 8
  | Raise e => e = StructError /\ List.length evbuf <> 8
  end.
Proof.
  destruct evbuf as [|b0 [|b1 [|b2 [|b3 [|b4 [|b5 [|b6 [|b7 [|b8 t]]]]]]]]];
    simpl; try (split; [reflexivity|discriminate]).
  reflexivity.
Qed.

Lemma poll_button_outcomes (st : JoystickState) (ev : Event) :
  match poll_button st ev with
  | (Ok cb, st') =>
      (button_bit ev = true ->
       Z.to_nat (ev_number ev) < List.length (button_map st))
      /\ axis_map st' = axis_map st /\ button_map st' = button_map st
      /\ axis_states st' = axis_states st
  | (Raise e, st') =>
      e = IndexError /\ st' = st /\ button_bit ev = true
      /\ List.length (button_map st) <= Z.to_nat (ev_number ev)
  end.
Proof.
  unfold poll_button, index, button_bit.
  destruct (truthy_int (Z.land (ev_type ev) 1)).
  - destruct (nth_error (button_map st) (Z.to_nat (ev_number ev)))
      as [name|] eqn:Hn.
    + assert (Hlt : Z.to_nat (ev_number ev) < List.length (button_map st))
        by (apply nth_error_Some; congruence).
      destruct (truthy_str name); simpl; auto.
    + apply nth_error_None in Hn. auto.
  - repeat split. discriminate.
Qed.

Lemma poll_axis_outcomes (st : JoystickState) (ev : Event) :
  match poll_axis st ev with
  | (Ok ca, st') =>
      (axis_bit ev = true ->
       Z.to_nat (ev_number ev) < List.length (axis_map st))
      /\ axis_map st' = axis_map st /\ button_map st' = button_map st
      /\ button_states st' = button_states st
  | (Raise e, st') =>
      e = IndexError /\ st' = st /\ axis_bit ev = true
      /\ List.length (axis_map st) <= Z.to_nat (ev_number ev)
  end.
Proof.
  unfold poll_axis, index, axis_bit.
  destruct (truthy_int (Z.land (ev_type ev) 2)).
  - destruct (nth_error (axis_map st) (Z.to_nat (ev_number ev)))
      as [name|] eqn:Hn.
    + assert (Hlt : Z.to_nat (ev_number ev) < List.length (axis_map st))
        by (apply nth_error_Some; congruence).
      destruct (truthy_str name); simpl; auto.
    + apply nth_error_None in Hn. auto.
  - repeat split. discriminate.
Qed.

(** X2: what a poll can come to. It returns [None] only for an empty
    read; it raises [struct.error] exactly for a non-empty read that is
    not eight bytes long, and [IndexError] only when the event has the
    button (or axis) bit set and its number is beyond the button (or
    axis) map; otherwise it returns a result that carries the decoded
    event, whose number is within the map of every bit that is set, and
    whose state copies are the joystick's states after the poll. *)
Theorem poll_outcomes (st : JoystickState) (evbuf : list Byte.byte) :
  match poll st evbuf with
  | (Ok None, st') => evbuf = [] /\ st' = st
  | (Ok (Some r), st') =>
      unpack_IhBB evbuf = Ok (event r)
      /\ (button_bit (event r) = true ->
          Z.to_nat (ev_number (event r)) < List.length (button_map st))
      /\ (axis_bit (event r) = true ->
          Z.to_nat (ev_number (event r)) < List.length (axis_map st))
      /\ full_axis_states r = axis_states st'
      /\ full_button_states r = button_states st'
  | (Raise e, st') =>
      (e = StructError /\ evbuf <> [] /\ List.length evbuf <> 8 /\ st' = st)
      \/ (e = IndexError
          /\ exists ev,
               unpack_IhBB evbuf = Ok ev
               /\ ((button_bit ev = true
                    /\ List.length (button_map st)
                       <= Z.to_nat (ev_number ev))
                   \/ (axis_bit ev = true
                       /\ List.length (axis_map st)
                          <= Z.to_nat (ev_number ev))))
  end.
Proof.
  unfold poll. destruct evbuf as [|b evbuf]; [auto|].
  pose proof (unpack_IhBB_length (b :: evbuf)) as Hlen.
  destruct (unpack_IhBB (b :: evbuf)) as [ev|e].
  - pose proof (poll_button_outcomes st ev) as Hb.
    destruct (poll_button st ev) as [[cb|e] st1].
    + destruct Hb as (Hb & Ham & Hbm & _).
      pose proof (poll_axis_outcomes st1 ev) as Ha.
      destruct (poll_axis st1 ev) as [[ca|e] st2].
      * destruct Ha as (Ha & _). simpl.
        rewrite <- Ham. auto.
      * destruct Ha as (-> & _ & Hbit & Hle). right.
        split; [reflexivity|]. exists ev. split; [reflexivity|].
        right. rewrite <- Ham. auto.
    + destruct Hb as (-> & _ & Hbit & Hle). right.
      split; [reflexivity|]. exists ev. split; [reflexivity|]. left. auto.
  - destruct Hlen as [-> Hne]. left. repeat split; auto. discriminate.
Qed.

Lemma poll_keeps_maps_aux (st : JoystickState) (evbuf : list Byte.byte) :
  axis_map (snd (poll st evbuf)) = axis_map st
  /\ button_map (snd (poll st evbuf)) = button_map st.
Proof.
  unfold poll. destruct evbuf as [|b evbuf]; [auto|].
  destruct (unpack_IhBB (b :: evbuf)) as [ev|e]; [|auto].
  pose proof (poll_button_outcomes st ev) as Hb.
  destruct (poll_button st ev) as [[cb|e] st1].
  - destruct Hb as (_ & Ham & Hbm & _).
    pose proof (poll_axis_outcomes st1 ev) as Ha.
    destruct (poll_axis st1 ev) as [[ca|e] st2]; simpl.
    + destruct Ha as (_ & Ham2 & Hbm2 & _). split; congruence.
    + destruct Ha as (_ & -> & _). auto.
  - destruct Hb as (_ & -> & _). auto.
Qed.

(** X3: a poll never changes the axis map or the button map of the
    joystick, whatever it reads and whether it returns or raises. *)
Theorem poll_keeps_maps (st : JoystickState) (evbuf : list Byte.byte) :
  axis_map (snd (poll st evbuf)) = axis_map st
  /\ button_map (snd (poll st evbuf)) = button_map st.
Proof.
  exact (poll_keeps_maps_aux st evbuf).
Qed.

Lemma poll_axis_state (st st' : JoystickState) (ev : Event)
    (ca : option AxisChange) :
  poll_axis st ev = (Ok ca, st') ->
  match ca with
  | Some a =>
      nth_error (axis_map st) (Z.to_nat (number a)) = Some (axis a)
      /\ truthy_str (axis a) = true
      /\ ivalue a = ev_value ev
      /\ axis_states st' = dict_set (axis a) (fvalue a) (axis_states st)
  | None => st' = st
  end.
Proof.
  unfold poll_axis, index.
  destruct (truthy_int (Z.land (ev_type ev) 2)).
  - destruct (nth_error (axis_map st) (Z.to_nat (ev_number ev)))
      as [name|] eqn:Hn; [|discriminate].
    destruct (truthy_str name) eqn:Ht; intros [= <- <-]; simpl; auto.
  - intros [= <- <-]. reflexivity.
Qed.

Lemma poll_button_state (st st' : JoystickState) (ev : Event)
    (cb : option ButtonChange) :
  poll_button st ev = (Ok cb, st') ->
  match cb with
  | Some b =>
      nth_error (button_map st) (Z.to_nat (bc_number b))
      = Some (bc_button b)
      /\ truthy_str (bc_button b) = true
      /\ bc_value b = ev_value ev
      /\ button_states st'
         = dict_set (bc_button b) (bc_value b) (button_states st)
  | None => st' = st
  end.
Proof.
  unfold poll_button, index.
  destruct (truthy_int (Z.land (ev_type ev) 1)).
  - destruct (nth_error (button_map st) (Z.to_nat (ev_number ev)))
      as [name|] eqn:Hn; [|discriminate].
    destruct (truthy_str name) eqn:Ht; intros [= <- <-]; simpl; auto.
  - intros [= <- <-]. reflexivity.
Qed.

Lemma poll_steps (st st' : JoystickState) (evbuf : list Byte.byte)
    (r : PollResult) :
  poll st evbuf = (Ok (Some r), st') ->
  exists st1,
    poll_button st (event r) = (Ok (changed_button r), st1)
    /\ poll_axis st1 (event r) = (Ok (changed_axis r), st')
    /\ full_axis_states r = axis_states st'
    /\ full_button_states r = button_states st'.
Proof.
  unfold poll. destruct evbuf as [|b evbuf]; [discriminate|].
  destruct (unpack_IhBB (b :: evbuf)) as [ev|e]; [|discriminate].
  destruct (poll_button st ev) as [[cb|e] st1] eqn:Hb; [|discriminate].
  destruct (poll_axis st1 ev) as [[ca|e] st2] eqn:Ha; [|discriminate].
  intros [= <- <-]. simpl. exists st1. auto.
Qed.

(** X4: a poll that reports a changed axis has stored the normalized
    value under that axis's name, the name being the non-empty entry of
    the axis map at the event's number, and has left the value of every
    other axis as it was; a poll that reports a changed button has
    stored the event value under the button's name and left every other
    button as it was. The copies in the result show these states. *)
Theorem poll_records_change (st st' : JoystickState)
    (evbuf : list Byte.byte) (r : PollResult) :
  poll st evbuf = (Ok (Some r), st') ->
  (forall a, changed_axis r = Some a ->
     nth_error (axis_map st) (Z.to_nat (number a)) = Some (axis a)
     /\ truthy_str (axis a) = true
     /\ dict_get (axis a) (full_axis_states r) = Some (fvalue a)
     /\ forall k, k <> axis a ->
          dict_get k (full_axis_states r) = dict_get k (axis_states st))
  /\ (forall b, changed_button r = Some b ->
        nth_error (button_map st) (Z.to_nat (bc_number b))
        = Some (bc_button b)
        /\ truthy_str (bc_button b) = true
        /\ bc_value b = ev_value (event r)
        /\ dict_get (bc_button b) (full_button_states r)
           = Some (bc_value b)
        /\ forall k, k <> bc_button b ->
             dict_get k (full_button_states r)
             = dict_get k (button_states st))
  /\ (changed_axis r = None -> full_axis_states r = axis_states st)
  /\ (changed_button r = None ->
      full_button_states r = button_states st).
Proof.
  intros H. destruct (poll_steps _ _ H) as (st1 & Hb & Ha & Hfa & Hfb).
  pose proof (poll_button_outcomes st (event r)) as Hbo. rewrite Hb in Hbo.
  destruct Hbo as (_ & Ham1 & _ & Has1).
  pose proof (poll_axis_outcomes st1 (event r)) as Hao. rewrite Ha in Hao.
  destruct Hao as (_ & _ & _ & Hbs2).
  pose proof (poll_axis_state _ _ Ha) as Hsa.
  pose proof (poll_button_state _ _ Hb) as Hsb.
  rewrite Hfa, Hfb, Hbs2. split; [|split; [|split]].
  - intros a Hca. rewrite Hca in Hsa.
    destruct Hsa as (Hn & Ht & _ & Hst). rewrite Hst.
    split; [now rewrite <- Ham1|]. split; [exact Ht|].
    split; [apply dict_get_set_same|].
    intros k Hk. rewrite dict_get_set_other by exact Hk. now rewrite Has1.
  - intros b Hcb. rewrite Hcb in Hsb.
    destruct Hsb as (Hn & Ht & Hv & Hst). rewrite Hst.
    split; [exact Hn|]. split; [exact Ht|]. split; [exact Hv|].
    split; [apply dict_get_set_same|].
    intros k Hk. now apply dict_get_set_other.
  - intros Hca. rewrite Hca in Hsa. subst st'. exact Has1.
  - intros Hcb. rewrite Hcb in Hsb. now subst st1.
Qed.

Definition empty_result : PollResult :=
  {| full_axis_states := []; full_button_states := [];
     event := mkEvent 0 0 0 0;
     changed_axis := None; changed_button := None |}.

(** The result of a poll that returned one. *)
Definition polled (st : JoystickState) (evbuf : list Byte.byte)
  : PollResult :=
  match poll st evbuf with
  | (Ok (Some r), _) => r
  | _ => empty_result
  end.

Lemma poll_records_change_witness :
  dict_get "x" (full_axis_states (polled example_stick x_half))
  = Some (normalize 16384)
  /\ dict_get "y" (full_axis_states (polled example_stick x_half))
     = Some 0%float.
Proof.
  destruct (@poll_records_change example_stick
              (snd (poll example_stick x_half)) x_half
              (polled example_stick x_half) eq_refl) as [Ha _].
  destruct (Ha (mkAxisChange 0 "x" 16384 (normalize 16384)) eq_refl)
    as (_ & _ & Hx & Hy).
  split; [exact Hx|]. rewrite (Hy "y"%string); [reflexivity|discriminate].
Defined.

(** Every name of the two maps has an entry in the matching dict. *)
Definition covered (st : JoystickState) : Prop :=
  incl (axis_map st) (keys (axis_states st))
  /\ incl (button_map st) (keys (button_states st)).

Lemma poll_button_keys (st st' : JoystickState) (ev : Event)
    (cb : option ButtonChange) :
  incl (button_map st) (keys (button_states st)) ->
  poll_button st ev = (Ok cb, st') ->
  keys (button_states st') = keys (button_states st).
Proof.
  intros Hc H. pose proof (poll_button_state _ _ H) as Hs.
  destruct cb as [b|]; [|now subst].
  destruct Hs as (Hn & _ & _ & ->).
  apply keys_set_present, Hc. exact (nth_error_In _ _ Hn).
Qed.

Lemma poll_axis_keys (st st' : JoystickState) (ev : Event)
    (ca : option AxisChange) :
  incl (axis_map st) (keys (axis_states st)) ->
  poll_axis st ev = (Ok ca, st') ->
  keys (axis_states st') = keys (axis_states st).
Proof.
  intros Hc H. pose proof (poll_axis_state _ _ H) as Hs.
  destruct ca as [a|]; [|now subst].
  destruct Hs as (Hn & _ & _ & ->).
  apply keys_set_present, Hc. exact (nth_error_In _ _ Hn).
Qed.

(** X5: on a joystick whose maps are covered by its state dicts, a poll
    never adds, removes or reorders an entry of the axis or button
    states, whether it returns or raises, and the dicts still cover the
    maps afterwards. *)
Theorem poll_keeps_keys (st : JoystickState) (evbuf : list Byte.byte) :
  covered st ->
  keys (axis_states (snd (poll st evbuf))) = keys (axis_states st)
  /\ keys (button_states (snd (poll st evbuf))) = keys (button_states st)
  /\ covered (snd (poll st evbuf)).
Proof.
  intros [Hca Hcb].
  assert (Hgoal :
    keys (axis_states (snd (poll st evbuf))) = keys (axis_states st)
    /\ keys (button_states (snd (poll st evbuf)))
       = keys (button_states st)).
  { unfold poll. destruct evbuf as [|b evbuf]; [auto|].
    destruct (unpack_IhBB (b :: evbuf)) as [ev|e]; [|auto].
    pose proof (poll_button_outcomes st ev) as Hbo.
    destruct (poll_button st ev) as [[cb|e] st1] eqn:Hb.
    - destruct Hbo as (_ & Ham1 & Hbm1 & Has1).
      pose proof (@poll_button_keys _ _ _ _ Hcb Hb) as Hk1.
      pose proof (poll_axis_outcomes st1 ev) as Hao.
      destruct (poll_axis st1 ev) as [[ca|e] st2] eqn:Ha; simpl.
      + destruct Hao as (_ & _ & _ & Hbs2).
        assert (Hca1 : incl (axis_map st1) (keys (axis_states st1)))
          by (rewrite Ham1, Has1; exact Hca).
        rewrite (@poll_axis_keys _ _ _ _ Hca1 Ha), Has1, Hbs2. auto.
      + destruct Hao as (_ & -> & _). rewrite Has1. auto.
    - destruct Hbo as (_ & -> & _). auto. }
  destruct Hgoal as [Hka Hkb]. split; [exact Hka|]. split; [exact Hkb|].
  destruct (poll_keeps_maps_aux st evbuf) as [Ham Hbm].
  unfold covered. rewrite Ham, Hbm, Hka, Hkb. auto.
Qed.

Section ZeroDict.

Variable V : Type.
Variable zero : V.

Definition zero_dict (names : list string) (d : list (string * V))
  : list (string * V) :=
  fold_left (fun d n => dict_set n zero d) names d.

Lemma zero_dict_keys (names : list string) :
  forall d, NoDup (keys d) ->
    NoDup (keys (zero_dict names d))
    /\ (forall k, In k (keys (zero_dict names d))
                  <-> In k names \/ In k (keys d)).
Proof.
  induction names as [|n names IH]; intros d Hnd; simpl.
  - split; [exact Hnd|]. intros k. intuition.
  - destruct (keys_set_nodup n zero d Hnd) as [Hnd1 Hin1].
    destruct (IH _ Hnd1) as [Hnd2 Hin2]. split; [exact Hnd2|].
    intros k. unfold zero_dict in Hin2. rewrite Hin2, Hin1.
    intuition.
Qed.

Lemma zero_dict_get (names : list string) (n : string) :
  forall d, In n names \/ dict_get n d = Some zero ->
            dict_get n (zero_dict names d) = Some zero.
Proof.
  induction names as [|n0 names IH]; intros d H; simpl.
  - destruct H as [[]|H]. exact H.
  - apply IH. destruct (string_dec n n0) as [->|Hne].
    + right. apply dict_get_set_same.
    + destruct H as [[Heq|Hin]|Hget].
      * congruence.
      * now left.
      * right. now rewrite dict_get_set_other.
Qed.

End ZeroDict.

Lemma make_zero_state_covered (axis_names button_names : list string) :
  covered (make_zero_state axis_names button_names).
Proof.
  split; intros n Hn; simpl;
    apply (@zero_dict_keys _ _ _ [] (NoDup_nil _)); now left.
Qed.

(** X6: the state [make_zero_state] builds has, for each name of the two
    maps, exactly one entry, holding 0.0 for an axis and 0 for a button,
    and no entry for any other name, also when a name occurs twice in a
    map. *)
Theorem make_zero_state_entries (axis_names button_names : list string) :
  axis_map (make_zero_state axis_names button_names) = axis_names
  /\ button_map (make_zero_state axis_names button_names) = button_names
  /\ NoDup (keys (axis_states (make_zero_state axis_names button_names)))
  /\ NoDup (keys (button_states (make_zero_state axis_names button_names)))
  /\ (forall k,
        In k (keys (axis_states (make_zero_state axis_names button_names)))
        <-> In k axis_names)
  /\ (forall k,
        In k (keys (button_states
                      (make_zero_state axis_names button_names)))
        <-> In k button_names)
  /\ (forall n, In n axis_names ->
        dict_get n (axis_states (make_zero_state axis_names button_names))
        = Some 0%float)
  /\ (forall n, In n button_names ->
        dict_get n (button_states
                      (make_zero_state axis_names button_names))
        = Some 0%Z).
Proof.
  destruct (@zero_dict_keys _ 0%float axis_names [] (NoDup_nil _))
    as [Hna Hka].
  destruct (@zero_dict_keys _ 0%Z button_names [] (NoDup_nil _))
    as [Hnb Hkb].
  simpl. repeat split; try assumption.
  - intros H. apply Hka in H. destruct H as [H|[]]. exact H.
  - intros H. apply Hka. now left.
  - intros H. apply Hkb in H. destruct H as [H|[]]. exact H.
  - intros H. apply Hkb. now left.
  - intros n Hn. apply zero_dict_get. now left.
  - intros n Hn. apply zero_dict_get. now left.
Qed.

Lemma poll_keeps_keys_witness :
  keys (axis_states (snd (poll example_stick x_half)))
  = ["x"; "y"]%string
  /\ keys (button_states (snd (poll example_stick x_half)))
     = ["a"]%string
  /\ covered (snd (poll example_stick x_half)).
Proof.
  exact (@poll_keeps_keys example_stick x_half
           (make_zero_state_covered _ _)).
Defined.

Lemma land_lor_128 (t : Z) :
  Z.land (Z.lor t 128) 1 = Z.land t 1
  /\ Z.land (Z.lor t 128) 2 = Z.land t 2.
Proof.
  rewrite !Z.land_lor_distr_l.
  change (Z.land 128 1) with 0%Z. change (Z.land 128 2) with 0%Z.
  now rewrite !Z.lor_0_r.
Qed.

Lemma poll_button_same_bits (st : JoystickState) (ev ev' : Event) :
  Z.land (ev_type ev') 1 = Z.land (ev_type ev) 1 ->
  ev_number ev' = ev_number ev -> ev_value ev' = ev_value ev ->
  poll_button st ev' = poll_button st ev.
Proof.
  intros Ht Hn Hv. unfold poll_button. now rewrite Ht, Hn, Hv.
Qed.

Lemma poll_axis_same_bits (st : JoystickState) (ev ev' : Event) :
  Z.land (ev_type ev') 2 = Z.land (ev_type ev) 2 ->
  ev_number ev' = ev_number ev -> ev_value ev' = ev_value ev ->
  poll_axis st ev' = poll_axis st ev.
Proof.
  intros Ht Hn Hv. unfold poll_axis. now rewrite Ht, Hn, Hv.
Qed.

(** X7: the flag 0x80, which marks the events that report the initial
    state of the device, makes no difference to a poll: the event with
    the flag set and the same event without it raise the same exception
    or report the same changes and the same states, and leave the
    joystick in the same state. *)
Theorem poll_ignores_init_flag (st : JoystickState)
    (b0 b1 b2 b3 b4 b5 t t' n : Byte.byte) :
  byte_val t' = Z.lor (byte_val t) 128 ->
  match poll st [b0; b1; b2; b3; b4; b5; t; n],
        poll st [b0; b1; b2; b3; b4; b5; t'; n] with
  | (Ok (Some r), s), (Ok (Some r'), s') =>
      s' = s
      /\ changed_axis r' = changed_axis r
      /\ changed_button r' = changed_button r
      /\ full_axis_states r' = full_axis_states r
      /\ full_button_states r' = full_button_states r
  | (Raise e, s), (Raise e', s') => e' = e /\ s' = s
  | _, _ => False
  end.
Proof.
  intros Ht. destruct (land_lor_128 (byte_val t)) as [H1 H2].
  unfold poll, unpack_IhBB.
  match goal with
  | |- context [poll_button st ?e'] =>
      match goal with
      | |- context [poll_button st ?e] =>
          lazymatch e with
          | e' => fail
          | _ =>
              assert (Hb : poll_button st e' = poll_button st e)
                by (apply poll_button_same_bits; simpl;
                    rewrite ?Ht; auto);
              assert (Ha : forall s, poll_axis s e' = poll_axis s e)
                by (intros s; apply poll_axis_same_bits; simpl;
                    rewrite ?Ht; auto)
          end
      end
  end.
  first [rewrite Hb | rewrite <- Hb].
  match goal with
  | |- context [poll_button st ?e] =>
      destruct (poll_button st e) as [[cb|e0] st1]; [|auto]
  end.
  first [rewrite Ha | rewrite <- Ha].
  match goal with
  | |- context [poll_axis st1 ?e] =>
      destruct (poll_axis st1 e) as [[ca|e0] st2]; simpl; auto
  end.
Qed.

Definition x_half_init : list Byte.byte :=
  [Byte.x00; Byte.x00; Byte.x00; Byte.x00;
   Byte.x00; Byte.x40; Byte.x82; Byte.x00].

Lemma poll_ignores_init_flag_witness :
  match poll example_stick x_half, poll example_stick x_half_init with
  | (Ok (Some r), s), (Ok (Some r'), s') =>
      s' = s
      /\ changed_axis r' = changed_axis r
      /\ changed_button r' = changed_button r
      /\ full_axis_states r' = full_axis_states r
      /\ full_button_states r' = full_button_states r
  | (Raise e, s), (Raise e', s') => e' = e /\ s' = s
  | _, _ => False
  end.
Proof.
  exact (@poll_ignores_init_flag example_stick
           Byte.x00 Byte.x00 Byte.x00 Byte.x00 Byte.x00 Byte.x40
           Byte.x02 Byte.x82 Byte.x00 eq_refl).
Defined.

(** ** joystick.py: the axis and button maps *)

Module JoystickMaps.

Definition AXIS_NAMES : list (Z * string) :=
  [(0x00, "x"); (0x01, "y"); (0x02, "z");
   (0x03, "rx"); (0x04, "ry"); (0x05, "rz");
   (0x06, "trottle"); (0x07, "rudder"); (0x08, "wheel");
   (0x09, "gas"); (0x0a, "brake");
   (0x10, "hat0x"); (0x11, "hat0y"); (0x12, "hat1x"); (0x13, "hat1y");
   (0x14, "hat2x"); (0x15, "hat2y"); (0x16, "hat3x"); (0x17, "hat3y");
   (0x18, "pressure"); (0x19, "distance");
   (0x1a, "tilt_x"); (0x1b, "tilt_y"); (0x1c, "tool_width");
   (0x20, "volume"); (0x28, "misc")]%Z%string.

Definition BUTTON_NAMES : list (Z * string) :=
  [(0x120, "trigger"); (0x121, "thumb"); (0x122, "thumb2");
   (0x123, "top"); (0x124, "top2"); (0x125, "pinkie");
   (0x126, "base"); (0x127, "base2"); (0x128, "base3");
   (0x129, "base4"); (0x12a, "base5"); (0x12b, "base6");
   (0x12f, "dead");
   (0x130, "a"); (0x131, "b"); (0x132, "c");
   (0x133, "x"); (0x134, "y"); (0x135, "z");
   (0x136, "tl"); (0x137, "tr"); (0x138, "tl2"); (0x139, "tr2");
   (0x13a, "select"); (0x13b, "start"); (0x13c, "mode");
   (0x13d, "thumbl"); (0x13e, "thumbr");
   (0x220, "dpad_up"); (0x221, "dpad_down");
   (0x222, "dpad_left"); (0x223, "dpad_right");
   (0x2c0, "dpad_left"); (0x2c1, "dpad_right");
   (0x2c2, "dpad_up"); (0x2c3, "dpad_down")]%Z%string.

(** [table.get(key, default)]. *)
Fixpoint get (table : list (Z * string)) (key : Z) (default : string)
  : string :=
  match table with
  | [] => default
  | (k, v) :: table' => if (key =? k)%Z then v else get table' key default
  end.

Definition hex_digit (d : Z) : ascii :=
  if (d <? 10)%Z then ascii_of_nat (48 + Z.to_nat d)
  else ascii_of_nat (87 + Z.to_nat d).

(** The hexadecimal digits of a number that is not negative, the most
    significant first, in front of [acc]. *)
Fixpoint hex_digits (fuel : nat) (n : Z) (acc : string) : string :=
  match fuel with
  | O => acc
  | S fuel' =>
      let acc' := String (hex_digit (n mod 16)) acc in
      if (n / 16 =? 0)%Z then acc' else hex_digits fuel' (n / 16) acc'
  end.

Fixpoint zero_pad (missing : nat) (s : string) : string :=
  match missing with
  | O => s
  | S missing' => String "0" (zero_pad missing' s)
  end.

(** ['%0<width>x' % n] for a number below 2^64 that is not negative. *)
Definition format_x (width : nat) (n : Z) : string :=
  let digits := hex_digits 16 n EmptyString in
  zero_pad (width - String.length digits) digits.

Definition axis_name (axis : Z) : string :=
  get AXIS_NAMES axis ("unknown(0x" ++ format_x 2 axis ++ ")")%string.

Definition button_name (btn : Z) : string :=
  get BUTTON_NAMES btn ("unknown(0x" ++ format_x 3 btn ++ ")")%string.

(** [read_axis_map], where [buf] is the array of 0x40 bytes as the
    [JSIOCGAXMAP] request filled it and [num_axes] what [read_axis_count]
    returned. *)
Definition read_axis_map (buf : list Byte.byte) (num_axes : Z)
  : list string :=
  map (fun axis => axis_name (byte_val axis))
      (firstn (Z.to_nat num_axes) buf).

(** [read_button_map], where [buf] is the array of 200 unsigned 16-bit
    numbers as the [JSIOCGBTNMAP] request filled it and [num_buttons]
    what [read_button_count] returned. *)
Definition read_button_map (buf : list Z) (num_buttons : Z)
  : list string :=
  map button_name (firstn (Z.to_nat num_buttons) buf).

(** The state of a [Joystick] after [__init__], given what the device
    answered to the four requests. *)
Definition init (axmap : list Byte.byte) (num_axes : Z)
    (btnmap : list Z) (num_buttons : Z) : JoystickState :=
  make_zero_state (read_axis_map axmap num_axes)
                  (read_button_map btnmap num_buttons).

End JoystickMaps.

Import JoystickMaps.

Definition named (s : string) : Prop := truthy_str s = true.

Lemma get_named (table : list (Z * string)) (key : Z) (default : string) :
  Forall (fun e => named (snd e)) table -> named default ->
  named (get table key default).
Proof.
  intros Ht Hd. induction Ht as [|[k v] table Hv Ht IH]; simpl.
  - exact Hd.
  - destruct (key =? k)%Z; [exact Hv|exact IH].
Qed.

Lemma axis_name_named (axis : Z) : named (axis_name axis).
Proof.
  apply get_named; [|reflexivity].
  unfold AXIS_NAMES. repeat constructor.
Qed.

Lemma button_name_named (btn : Z) : named (button_name btn).
Proof.
  apply get_named; [|reflexivity].
  unfold BUTTON_NAMES. repeat constructor.
Qed.

Lemma read_axis_map_named (buf : list Byte.byte) (num_axes : Z) :
  Forall named (read_axis_map buf num_axes).
Proof.
  unfold read_axis_map. apply Forall_map, Forall_forall.
  intros c _. apply axis_name_named.
Qed.

Lemma read_button_map_named (buf : list Z) (num_buttons : Z) :
  Forall named (read_button_map buf num_buttons).
Proof.
  unfold read_button_map. apply Forall_map, Forall_forall.
  intros c _. apply button_name_named.
Qed.

(** X8: [read_axis_map] and [read_button_map] give one name for each of
    the first [num_axes] (or [num_buttons]) entries of the buffer, as
    many as the buffer has, and none of these names is empty, whether
    the code is in the table or gets the [unknown(0x..)] name. *)
Theorem read_maps_names (axmap : list Byte.byte) (num_axes : Z)
    (btnmap : list Z) (num_buttons : Z) :
  List.length (read_axis_map axmap num_axes)
  = Nat.min (Z.to_nat num_axes) (List.length axmap)
  /\ List.length (read_button_map btnmap num_buttons)
     = Nat.min (Z.to_nat num_buttons) (List.length btnmap)
  /\ Forall (fun s => truthy_str s = true) (read_axis_map axmap num_axes)
  /\ Forall (fun s => truthy_str s = true)
            (read_button_map btnmap num_buttons).
Proof.
  unfold read_axis_map at 1, read_button_map at 1.
  rewrite !length_map, !length_firstn.
  repeat split.
  - apply read_axis_map_named.
  - apply read_button_map_named.
Qed.

Lemma poll_axis_named (st st' : JoystickState) (ev : Event)
    (ca : option AxisChange) :
  Forall named (axis_map st) ->
  poll_axis st ev = (Ok ca, st') ->
  if axis_bit ev
  then exists a, ca = Some a /\ number a = ev_number ev
                 /\ ivalue a = ev_value ev
  else ca = None.
Proof.
  intros Hnamed. unfold poll_axis, index, axis_bit.
  destruct (truthy_int (Z.land (ev_type ev) 2)).
  - destruct (nth_error (axis_map st) (Z.to_nat (ev_number ev)))
      as [name|] eqn:Hn; [|discriminate].
    rewrite Forall_forall in Hnamed.
    rewrite (Hnamed name (nth_error_In _ _ Hn)).
    intros [= <- <-]. eexists. simpl. auto.
  - now intros [= <- <-].
Qed.

Lemma poll_button_named (st st' : JoystickState) (ev : Event)
    (cb : option ButtonChange) :
  Forall named (button_map st) ->
  poll_button st ev = (Ok cb, st') ->
  if button_bit ev
  then exists b, cb = Some b /\ bc_number b = ev_number ev
                 /\ bc_value b = ev_value ev
  else cb = None.
Proof.
  intros Hnamed. unfold poll_button, index, button_bit.
  destruct (truthy_int (Z.land (ev_type ev) 1)).
  - destruct (nth_error (button_map st) (Z.to_nat (ev_number ev)))
      as [name|] eqn:Hn; [|discriminate].
    rewrite Forall_forall in Hnamed.
    rewrite (Hnamed name (nth_error_In _ _ Hn)).
    intros [= <- <-]. eexists. simpl. auto.
  - now intros [= <- <-].
Qed.

(** X9: on a joystick set up by [__init__], the guards [if axis:] and
    [if button:] of [poll] never hold a change back: a poll that returns
    a result reports a changed axis exactly when the event has the axis
    bit set, with the event's number and value, and a changed button
    exactly when the event has the button bit set. *)
Theorem init_poll_reports_every_event (axmap : list Byte.byte)
    (num_axes : Z) (btnmap : list Z) (num_buttons : Z)
    (evbuf : list Byte.byte) (r : PollResult) (st' : JoystickState) :
  poll (init axmap num_axes btnmap num_buttons) evbuf
  = (Ok (Some r), st') ->
  (if axis_bit (event r)
   then exists a, changed_axis r = Some a
                  /\ number a = ev_number (event r)
                  /\ ivalue a = ev_value (event r)
   else changed_axis r = None)
  /\ (if button_bit (event r)
      then exists b, changed_button r = Some b
                     /\ bc_number b = ev_number (event r)
                     /\ bc_value b = ev_value (event r)
      else changed_button r = None).
Proof.
  intros H. destruct (poll_steps _ _ H) as (st1 & Hb & Ha & _).
  pose proof (poll_button_outcomes
                (init axmap num_axes btnmap num_buttons) (event r)) as Hbo.
  rewrite Hb in Hbo. destruct Hbo as (_ & Ham1 & _).
  split.
  - eapply poll_axis_named; [|exact Ha].
    rewrite Ham1. apply read_axis_map_named.
  - eapply poll_button_named; [|exact Hb].
    apply read_button_map_named.
Qed.

Definition example_axmap : list Byte.byte := [Byte.x00; Byte.x01; Byte.x02].
Definition example_btnmap : list Z := [0x130; 0x131]%Z.

Lemma init_poll_reports_every_event_witness :
  (if axis_bit (event (polled (init example_axmap 2 example_btnmap 1)
                              x_half))
   then exists a,
       changed_axis (polled (init example_axmap 2 example_btnmap 1) x_half)
       = Some a
       /\ number a
          = ev_number (event (polled (init example_axmap 2
                                           example_btnmap 1) x_half))
       /\ ivalue a
          = ev_value (event (polled (init example_axmap 2
                                          example_btnmap 1) x_half))
   else changed_axis (polled (init example_axmap 2 example_btnmap 1)
                             x_half) = None)
  /\ (if button_bit (event (polled (init example_axmap 2 example_btnmap 1)
                                   x_half))
      then exists b,
          changed_button (polled (init example_axmap 2 example_btnmap 1)
                                 x_half) = Some b
          /\ bc_number b
             = ev_number (event (polled (init example_axmap 2
                                              example_btnmap 1) x_half))
          /\ bc_value b
             = ev_value (event (polled (init example_axmap 2
                                             example_btnmap 1) x_half))
      else changed_button (polled (init example_axmap 2 example_btnmap 1)
                                  x_half) = None).
Proof.
  exact (@init_poll_reports_every_event example_axmap 2 example_btnmap 1
           x_half (polled (init example_axmap 2 example_btnmap 1) x_half)
           (snd (poll (init example_axmap 2 example_btnmap 1) x_half))
           eq_refl).
Defined.

Definition distinct_axis_names_from (v : Z) : bool :=
  all_from (fun w => implb (String.eqb (axis_name v) (axis_name w))
                           (v =? w)%Z)
           0 256.

Lemma axis_names_checked :
  all_from distinct_axis_names_from 0 256 = true.
Proof. vm_compute. reflexivity. Qed.

Lemma byte_val_injective (c1 c2 : Byte.byte) :
  byte_val c1 = byte_val c2 -> c1 = c2.
Proof.
  unfold byte_val. intros H. apply N2Z.inj in H.
  pose proof (Byte.of_to_N c1) as H1. pose proof (Byte.of_to_N c2) as H2.
  rewrite H in H1. congruence.
Qed.

(** X10: [read_axis_map] never gives two different axis codes the same
    name, so every axis code of a device has a state entry of its own:
    the names of the table are all different, and the [unknown(0x..)]
    names differ from them and from one another. *)
Theorem axis_names_are_distinct (c1 c2 : Byte.byte) :
  axis_name (byte_val c1) = axis_name (byte_val c2) -> c1 = c2.
Proof.
  intros H. apply byte_val_injective.
  pose proof (byte_val_range c1) as R1. pose proof (byte_val_range c2) as R2.
  pose proof (@all_from_spec _ _ _ axis_names_checked (byte_val c1)) as H1.
  cbv beta in H1. unfold distinct_axis_names_from in H1.
  pose proof (@all_from_spec _ _ _ (H1 ltac:(simpl; lia)) (byte_val c2)) as H2.
  cbv beta in H2. specialize (H2 ltac:(simpl; lia)).
  rewrite H, String.eqb_refl in H2. simpl in H2.
  now apply Z.eqb_eq.
Qed.

Lemma axis_names_are_distinct_witness : Byte.x1c = Byte.x1c.
Proof.
  exact (@axis_names_are_distinct Byte.x1c Byte.x1c eq_refl).
Defined.

(** ** The subscription: before the first tick, and after an exception *)

Lemma poll_before_first_tick (s : pipeline) (evbuf : list Byte.byte) :
  latest_tick s = None ->
  latest_tick (step s (PollTick evbuf)) = None
  /\ forwarded (step s (PollTick evbuf)) = forwarded s
  /\ new_position (step s (PollTick evbuf)) = new_position s.
Proof.
  intros Ht. unfold step. destruct (failure s); [auto|].
  unfold on_poll.
  destruct (poll_joystick (in_stick s) evbuf) as [[update|e] st]; [|auto].
  destruct (all_not_None (update_position (accu s) update)); [|auto].
  rewrite Ht. auto.
Qed.

(** X11: as long as the command timer has not ticked, nothing reaches
    [move_printer] and the mailbox stays as it is, however many polls
    have delivered aggregates. *)
Theorem nothing_forwarded_before_first_tick (stick : JoystickState)
    (bufs : list (list Byte.byte)) :
  forwarded (run (subscribe stick) (map PollTick bufs)) = []
  /\ new_position (run (subscribe stick) (map PollTick bufs)) = None
  /\ latest_tick (run (subscribe stick) (map PollTick bufs)) = None.
Proof.
  assert (H : forall s, latest_tick s = None ->
            forwarded (run s (map PollTick bufs)) = forwarded s
            /\ new_position (run s (map PollTick bufs)) = new_position s
            /\ latest_tick (run s (map PollTick bufs)) = None).
  { induction bufs as [|evbuf bufs IH]; intros s Ht; [auto|].
    destruct (poll_before_first_tick s evbuf Ht) as (Ht' & Hf & Hn).
    simpl. destruct (IH _ Ht') as (IHf & IHn & IHt).
    unfold run in *. rewrite IHf, IHn, IHt, Hf, Hn. auto. }
  destruct (H (subscribe stick) eq_refl) as (Hf & Hn & Ht). auto.
Qed.

(** X12: a poll that raises ends the subscription: the exception is kept
    as the failure of the stream, the aggregate, what was forwarded and
    the mailbox stay as they were, and no later timer event changes
    anything. An empty read is such a poll, with [AttributeError]. *)
Theorem raising_poll_ends_stream (s : pipeline) (evbuf : list Byte.byte)
    (e : exn) (st : JoystickState) (evs : list timer_event) :
  failure s = None ->
  poll_joystick (in_stick s) evbuf = (Raise e, st) ->
  run s (PollTick evbuf :: evs)
  = {| in_stick := st; accu := accu s;
       latest_position := latest_position s;
       latest_tick := latest_tick s;
       new_position := new_position s;
       forwarded := forwarded s;
       failure := Some e |}
  /\ poll_joystick (in_stick s) [] = (Raise AttributeError, in_stick s).
Proof.
  intros Hf Hp. split; [|reflexivity].
  change (run s (PollTick evbuf :: evs))
    with (run (step s (PollTick evbuf)) evs).
  unfold step. rewrite Hf. unfold on_poll. rewrite Hp.
  now apply run_failed with (e := e).
Qed.

Lemma raising_poll_ends_stream_witness :
  run (subscribe example_stick) [PollTick []; PollTick x_half; CommandTick]
  = {| in_stick := example_stick; accu := joystick_positions_seed;
       latest_position := None; latest_tick := None;
       new_position := None; forwarded := [];
       failure := Some AttributeError |}
  /\ poll_joystick example_stick [] = (Raise AttributeError, example_stick).
Proof.
  exact (@raising_poll_ends_stream (subscribe example_stick) []
           AttributeError example_stick [PollTick x_half; CommandTick]
           eq_refl eq_refl).
Defined.

Lemma update_position_nothing (pos : list (option float)) :
  complete_pair pos = true -> update_position pos [None; None] = pos.
Proof.
  destruct pos as [|[x|] [|[y|] [|z pos]]]; try discriminate. reflexivity.
Qed.

(** X13: after the first command tick, a poll that brings no update for
    axis 0 or 1 (a button event, another axis) still calls
    [move_printer], with the aggregate unchanged. *)
Theorem idle_poll_forwards_again (s : pipeline) (evbuf : list Byte.byte)
    (st : JoystickState) (tick : Z) :
  failure s = None ->
  complete_pair (accu s) = true ->
  latest_tick s = Some tick ->
  poll_joystick (in_stick s) evbuf = (Ok [None; None], st) ->
  accu (step s (PollTick evbuf)) = accu s
  /\ latest_position (step s (PollTick evbuf)) = Some (accu s)
  /\ forwarded (step s (PollTick evbuf))
     = (forwarded s ++ [(tick, accu s)])%list.
Proof.
  intros Hf Hc Ht Hp. unfold step. rewrite Hf. unfold on_poll. rewrite Hp.
  rewrite (update_position_nothing _ Hc).
  rewrite (complete_pair_all_not_None _ Hc), Ht.
  match goal with |- context [on_next ?t ?p ?s'] =>
    destruct (on_next_forwards t p s') as (H1 & H2 & H3 & H4) end.
  rewrite H1, H2, H3. auto.
Qed.

Definition button_a_pressed : list Byte.byte :=
  [Byte.x00; Byte.x00; Byte.x00; Byte.x00;
   Byte.x01; Byte.x00; Byte.x01; Byte.x00].

Lemma idle_poll_forwards_again_witness :
  accu (step (run (subscribe example_stick) [PollTick x_half; CommandTick])
             (PollTick button_a_pressed))
  = [Some (normalize 16384); Some 0%float]
  /\ latest_position
       (step (run (subscribe example_stick) [PollTick x_half; CommandTick])
             (PollTick button_a_pressed))
     = Some [Some (normalize 16384); Some 0%float]
  /\ forwarded
       (step (run (subscribe example_stick) [PollTick x_half; CommandTick])
             (PollTick button_a_pressed))
     = [(0%Z, [Some (normalize 16384); Some 0%float]);
        (0%Z, [Some (normalize 16384); Some 0%float])].
Proof.
  exact (@idle_poll_forwards_again
           (run (subscribe example_stick) [PollTick x_half; CommandTick])
           button_a_pressed
           (snd (poll_joystick
                   (in_stick (run (subscribe example_stick)
                                  [PollTick x_half; CommandTick]))
                   button_a_pressed))
           0%Z eq_refl eq_refl eq_refl eq_refl).
Defined.

(** ** The reach of a stored target *)

(** The largest displacement per axis: the lowest event value,
    normalized and scaled, a little above [MAX_REACH]. *)
Definition reach_bound : float :=
  PrimFloat.abs (normalize (-32768) * MAX_REACH)%float.

Definition within_reach (d : float) : bool :=
  (PrimFloat.abs d <=? reach_bound)%float.

Definition reachable_value (f : float) : Prop :=
  within_reach (f * MAX_REACH)%float = true.

Definition reachable_pair (pos : list (option float)) : Prop :=
  exists x y, pos = [Some x; Some y]
              /\ reachable_value x /\ reachable_value y.

Lemma normalize_all_within_reach :
  all_from (fun v => within_reach (normalize v * MAX_REACH)%float)
           (-32768) (Z.to_nat 65536) = true.
Proof. vm_compute. reflexivity. Qed.

Lemma normalize_reachable (v : Z) :
  (-32768 <= v <= 32767)%Z -> reachable_value (normalize v).
Proof.
  intros Hv.
  pose proof (@all_from_spec _ _ _ normalize_all_within_reach v) as H.
  cbv beta in H. apply H. rewrite Z2Nat.id by lia. lia.
Qed.

Lemma poll_joystick_values (st st' : JoystickState)
    (evbuf : list Byte.byte) (update : list (option float)) :
  poll_joystick st evbuf = (Ok update, st') ->
  exists x y,
    update = [x; y]
    /\ (forall f, x = Some f -> reachable_value f)
    /\ (forall f, y = Some f -> reachable_value f).
Proof.
  intros H.
  destruct (poll_joystick_returns _ _ H) as (r & _ & Hpa & Hup).
  unfold axis_update in Hup. injection Hup as <-.
  assert (Hval : forall a, changed_axis r = Some a ->
                           reachable_value (fvalue a)).
  { intros a Ha. rewrite <- Hpa in Ha.
    destruct (polled_axis_event _ _ Ha) as (ev & Hev & _ & _ & ->).
    apply normalize_reachable.
    now destruct (unpack_IhBB_ranges _ Hev). }
  destruct (changed_axis r) as [a|].
  - specialize (Hval a eq_refl).
    destruct (number a =? 0)%Z; [|destruct (number a =? 1)%Z].
    + exists (Some (fvalue a)), None.
      split; [reflexivity|]. split; [now intros f [= <-]|discriminate].
    + exists None, (Some (fvalue a)).
      split; [reflexivity|]. split; [discriminate|now intros f [= <-]].
    + exists None, None. repeat split; discriminate.
  - exists None, None. repeat split; discriminate.
Qed.

Lemma reachable_pair_preserved (evbuf : list Byte.byte)
    (st st' : JoystickState) (update accu : list (option float)) :
  True ->
  poll_joystick st evbuf = (Ok update, st') ->
  reachable_pair accu -> reachable_pair (update_position accu update).
Proof.
  intros _ H (a & b & -> & Ha & Hb).
  destruct (poll_joystick_values _ _ H) as (x & y & -> & Hx & Hy).
  destruct x as [x|], y as [y|]; simpl;
    eexists; eexists; (split; [reflexivity|]); split; auto.
Qed.

Definition mailbox_within_reach (cell : mailbox) : Prop :=
  match cell with
  | Some (dx, dy) => within_reach dx = true /\ within_reach dy = true
  | None => True
  end.

Lemma move_printer_within_reach (pos : list (option float))
    (cell cell' : mailbox) :
  reachable_pair pos -> mailbox_within_reach cell ->
  move_printer pos cell = Ok cell' -> mailbox_within_reach cell'.
Proof.
  intros (x & y & -> & Hx & Hy) Hcell. unfold move_printer.
  cbn [as_floats].
  destruct (MIN_NORM <? norm [x; y])%float; simpl.
  - intros [= <-]. split; assumption.
  - now intros [= <-].
Qed.

Lemma step_mailbox (s : pipeline) (ev : timer_event) :
  new_position (step s ev) = new_position s
  \/ exists c, In c (forwarded (step s ev))
               /\ move_printer (snd c) (new_position s)
                  = Ok (new_position (step s ev)).
Proof.
  assert (Hnext : forall tick pos s',
             new_position (on_next tick pos s') = new_position s'
             \/ exists c, In c (forwarded (on_next tick pos s'))
                          /\ move_printer (snd c) (new_position s')
                             = Ok (new_position (on_next tick pos s'))).
  { intros tick pos s'. unfold on_next.
    destruct (move_printer pos (new_position s')) as [cell|e] eqn:Hm;
      simpl; [|now left].
    right. exists (tick, pos). split; [|exact Hm].
    apply in_or_app. right. now left. }
  unfold step. destruct (failure s); [now left|].
  destruct ev as [evbuf|].
  - unfold on_poll.
    destruct (poll_joystick (in_stick s) evbuf) as [[update|e] st];
      [|now left].
    destruct (all_not_None (update_position (accu s) update)); [|now left].
    destruct (latest_tick s) as [tick|]; [|now left].
    match goal with |- context [on_next ?t ?p ?s'] =>
      exact (Hnext t p s') end.
  - unfold on_command_tick.
    destruct (latest_position s) as [pos|]; [|now left].
    match goal with |- context [on_next ?t ?p ?s'] =>
      exact (Hnext t p s') end.
Qed.

Lemma run_within_reach (stick : JoystickState) (evs : list timer_event) :
  mailbox_within_reach (new_position (run (subscribe stick) evs)).
Proof.
  assert (H : forall s,
             holds reachable_pair s ->
             mailbox_within_reach (new_position s) ->
             mailbox_within_reach (new_position (run s evs))).
  { induction evs as [|ev evs IH]; intros s Hs Hm; [exact Hm|].
    assert (Hs' : holds reachable_pair (step s ev)).
    { apply holds_step with (allowed := fun _ => True); auto.
      exact reachable_pair_preserved. }
    apply (IH (step s ev) Hs').
    destruct (step_mailbox s ev) as [->|(c & Hin & Hmp)]; [exact Hm|].
    destruct Hs' as (_ & _ & Hfw). rewrite Forall_forall in Hfw.
    exact (@move_printer_within_reach _ _ _ (Hfw c Hin) Hm Hmp). }
  apply (H (subscribe stick)); [|exact I].
  split; [|split; [discriminate|constructor]].
  exists 0%float, 0%float. repeat split.
Qed.

(** X14: whatever the joystick sends and however the timers fire, each
    component of a target in the mailbox is at most [reach_bound] in
    absolute value, that is 32768 / 32767.0 * MAX_REACH, about 0.200006:
    no command moves an axis further than that. *)
Theorem mailbox_stays_within_reach (stick : JoystickState)
    (evs : list timer_event) :
  match new_position (run (subscribe stick) evs) with
  | Some (dx, dy) =>
      (PrimFloat.abs dx <=? reach_bound)%float = true
      /\ (PrimFloat.abs dy <=? reach_bound)%float = true
  | None => True
  end.
Proof.
  exact (run_within_reach stick evs).
Qed.

(** ** The actuation loop: only the latest target is acted upon *)

(** The calls of one successful activation for a target. *)
Definition directives (t : target) : tty_log :=
  [(FlushInput, true);
   (Write ("G91" ++ newline), true);
   (ReadLine, true);
   (FlushInput, true);
   (Write (move_directive (fst t) (snd t) ++ newline), true);
   (ReadLine, true)].

(** The last element of a list, if it has one. *)
Definition latest (stored : list target) : option target :=
  match rev stored with
  | t :: _ => Some t
  | [] => None
  end.

Lemma activation_succeeds (tty : device) (t : target) (log : tty_log) :
  (forall n, io_ok tty n = true) ->
  activation tty t log = (Ok tt, (log ++ directives t)%list).
Proof.
  intros H. destruct t as [dx dy]. unfold activation, bind, ret.
  rewrite !send_gcode_succeeds by (intros; apply H).
  now rewrite <- app_assoc.
Qed.

Lemma stores_leave_latest (stored : list target) (cell : mailbox) :
  fold_left (fun np t => set t np) stored cell
  = match latest stored with
    | Some t => Some t
    | None => cell
    end.
Proof.
  unfold latest.
  induction stored as [|t stored IH] using rev_ind; [reflexivity|].
  rewrite fold_left_app, rev_app_distr. reflexivity.
Qed.

(** X15: with a device whose calls all succeed, the loop started on an
    empty mailbox sends, at each wake-up, the two directives of the
    target stored last since the previous wake-up, and nothing for the
    targets that were overwritten or for a wake-up that finds nothing;
    it ends waiting with the mailbox empty. *)
Theorem loop_acts_on_latest_only (tty : device)
    (schedule : list (list target)) (log : tty_log) :
  (forall n, io_ok tty n = true) ->
  execute_move tty schedule None log
  = (Waiting, None,
     (log ++ flat_map (fun stored =>
                         match latest stored with
                         | Some t => directives t
                         | None => []
                         end) schedule)%list).
Proof.
  intros H. revert log.
  induction schedule as [|stored schedule IH]; intros log; simpl.
  - now rewrite app_nil_r.
  - rewrite stores_leave_latest.
    destruct (latest stored) as [t|]; simpl.
    + rewrite (@activation_succeeds tty t log H), IH.
      now rewrite <- app_assoc.
    + apply IH.
Qed.

Lemma loop_acts_on_latest_only_witness :
  execute_move obliging_device
    [[(0.5%float, 0.5%float); (0.1%float, (-0.1)%float)]; []] None []
  = (Waiting, None,
     [(FlushInput, true);
      (Write ("G91" ++ newline), true);
      (ReadLine, true);
      (FlushInput, true);
      (Write ("G1 X0.100 Y0.100 F400" ++ newline), true);
      (ReadLine, true)]).
Proof.
  exact (@loop_acts_on_latest_only obliging_device
           [[(0.5%float, 0.5%float); (0.1%float, (-0.1)%float)]; []] []
           (fun _ => eq_refl)).
Defined.

(** ** [move_printer]: every outcome *)

Lemma as_floats_outcomes (delta : list (option float)) :
  match as_floats delta with
  | Ok v => delta = map Some v
  | Raise e => e = TypeError /\ In None delta
  end.
Proof.
  induction delta as [|[x|] delta IH]; simpl.
  - reflexivity.
  - destruct (as_floats delta) as [v|e]; simpl.
    + now rewrite IH.
    + destruct IH as [-> Hin]. auto.
  - auto.
Qed.

(** X16: [move_printer] either leaves the mailbox as it is, or, for a
    pair whose norm is above [MIN_NORM], stores the pair scaled by
    [MAX_REACH]; it never empties a mailbox that holds a target. It
    raises only for an element that is [None], or for a vector above
    the noise floor that does not have exactly two elements. *)
Theorem move_printer_outcomes (delta : list (option float))
    (cell : mailbox) :
  match move_printer delta cell with
  | Ok cell' =>
      (cell' = cell
       \/ exists x y,
            delta = [Some x; Some y]
            /\ (MIN_NORM <? norm [x; y])%float = true
            /\ cell' = Some ((x * MAX_REACH)%float, (y * MAX_REACH)%float))
      /\ (cell <> None -> cell' <> None)
  | Raise e =>
      (e = TypeError /\ In None delta)
      \/ (e = ValueError /\ List.length delta <> 2
          /\ exists v, delta = map Some v
                       /\ (MIN_NORM <? norm v)%float = true)
  end.
Proof.
  unfold move_printer. pose proof (as_floats_outcomes delta) as Hf.
  destruct (as_floats delta) as [v|e]; [|now left].
  destruct (MIN_NORM <? norm v)%float eqn:Hn; [|simpl; auto].
  subst delta.
  destruct v as [|x [|y [|z v]]]; simpl.
  - right. split; [reflexivity|]. split; [discriminate|]. exists []. auto.
  - right. split; [reflexivity|]. split; [discriminate|]. exists [x]. auto.
  - split; [|discriminate]. right. exists x, y. auto.
  - right. split; [reflexivity|]. split; [discriminate|].
    exists (x :: y :: z :: v). auto.
Qed.

(** ** The move directive is well formed *)

(** A binary64 value that is a number: a zero or a finite value, not an
    infinity and not a NaN. *)
Definition is_number (x : float) : bool :=
  match Prim2SF x with
  | S754_zero _ | S754_finite _ _ _ => true
  | _ => false
  end.

(** An optional minus sign, the decimal digits of a natural number, a
    dot and exactly three decimal digits. *)
Definition three_decimals (s : string) : Prop :=
  exists (negative : bool) (int d1 d2 d3 : Z),
    s = (sign_prefix negative ++ str_int int ++ "."
         ++ String (digit d1) (String (digit d2)
              (String (digit d3) EmptyString)))%string
    /\ (0 <= int)%Z
    /\ (0 <= d1 <= 9)%Z /\ (0 <= d2 <= 9)%Z /\ (0 <= d3 <= 9)%Z.

Lemma round_half_even_nonneg (num den : Z) :
  (0 <= num)%Z -> (0 < den)%Z -> (0 <= round_half_even num den)%Z.
Proof.
  intros Hn Hd. unfold round_half_even.
  assert (0 <= num / den)%Z by (apply Z.div_pos; lia).
  destruct (2 * (num mod den) ?= den)%Z; [destruct (Z.even _)| |]; lia.
Qed.

Lemma format_3f_shape (x : float) :
  is_number x = true -> three_decimals (format_3f x).
Proof.
  unfold is_number, format_3f.
  destruct (Prim2SF x) as [s|s| |s m e]; try discriminate; intros _.
  - exists s, 0%Z, 0%Z, 0%Z, 0%Z. repeat split; try lia.
  - set (n := if (0 <=? e)%Z
              then (Z.pos m * 2 ^ e * 1000)%Z
              else round_half_even (Z.pos m * 1000) (2 ^ (- e))).
    assert (Hn : (0 <= n)%Z).
    { subst n. destruct (Z.leb_spec 0 e).
      - assert (0 < 2 ^ e)%Z by (apply Z.pow_pos_nonneg; lia). nia.
      - apply round_half_even_nonneg; [lia|].
        apply Z.pow_pos_nonneg; lia. }
    exists s, (n / 1000)%Z, ((n mod 1000) / 100)%Z,
      (((n mod 1000) / 10) mod 10)%Z, ((n mod 1000) mod 10)%Z.
    split; [reflexivity|].
    repeat split; Z.div_mod_to_equations; lia.
Qed.

Lemma opp_is_number (x : float) :
  is_number x = true -> is_number (- x)%float = true.
Proof.
  unfold is_number. rewrite opp_spec.
  destruct (Prim2SF x); simpl; auto.
Qed.

Lemma within_reach_is_number (d : float) :
  within_reach d = true -> is_number d = true.
Proof.
  unfold within_reach, is_number.
  rewrite leb_spec, abs_spec.
  destruct (Prim2SF d) as [s|s| |s m e]; try reflexivity;
    vm_compute; discriminate.
Qed.

(** X17: the move directive of every target that the subscription can
    leave in the mailbox is well formed: [G1 X], a number with an
    optional sign and exactly three decimals, [ Y], such a number again,
    and [ F400]; it never holds [nan], [inf] or an exponent. The same
    holds for any target whose two components are numbers. *)
Theorem move_directive_well_formed :
  (forall dx dy,
      is_number dx = true -> is_number dy = true ->
      exists sx sy,
        three_decimals sx /\ three_decimals sy
        /\ move_directive dx dy
           = ("G1 X" ++ sx ++ " Y" ++ sy ++ " F400")%string)
  /\ (forall stick evs dx dy,
         new_position (run (subscribe stick) evs) = Some (dx, dy) ->
         exists sx sy,
           three_decimals sx /\ three_decimals sy
           /\ move_directive dx dy
              = ("G1 X" ++ sx ++ " Y" ++ sy ++ " F400")%string).
Proof.
  assert (H : forall dx dy,
      is_number dx = true -> is_number dy = true ->
      exists sx sy,
        three_decimals sx /\ three_decimals sy
        /\ move_directive dx dy
           = ("G1 X" ++ sx ++ " Y" ++ sy ++ " F400")%string).
  { intros dx dy Hx Hy.
    exists (format_3f dx), (format_3f (- dy)%float).
    split; [now apply format_3f_shape|].
    split; [now apply format_3f_shape, opp_is_number|reflexivity]. }
  split; [exact H|].
  intros stick evs dx dy Hcell.
  pose proof (run_within_reach stick evs) as Hr. rewrite Hcell in Hr.
  destruct Hr as [Hx Hy]. apply H; now apply within_reach_is_number.
Qed.

(** X18: negating a component before formatting, as the move directive
    does for [dy], changes the sign character and nothing else: the
    digits of [-dy] are those of [dy], with a minus sign in front when
    [dy] has none and without one when [dy] has one. A [dy] of zero is
    therefore sent as [-0.000]. A NaN is formatted as [nan] either
    way. *)
Theorem format_3f_negation (x : float) :
  match Prim2SF x with
  | S754_nan => format_3f (- x)%float = "nan"%string
  | _ =>
      exists body,
        (format_3f x = body /\ format_3f (- x)%float = ("-" ++ body)%string)
        \/ (format_3f x = ("-" ++ body)%string
            /\ format_3f (- x)%float = body)
  end
  /\ format_3f (- 0)%float = "-0.000"%string.
Proof.
  split; [|reflexivity].
  unfold format_3f. rewrite opp_spec.
  destruct (Prim2SF x) as [[|]|[|]| |[|] m e]; simpl;
    try reflexivity; eexists;
    solve [ left; split; reflexivity | right; split; reflexivity ].
Qed.

(** ** Decoding an event *)

Lemma byte_val_le_255 (b : Byte.byte) : (0 <= byte_val b <= 255)%Z.
Proof. pose proof (byte_val_range b). lia. Qed.

Lemma split_low_byte (a b a' b' : Z) :
  (0 <= a <= 255)%Z -> (0 <= a' <= 255)%Z ->
  (a + b * 256 = a' + b' * 256)%Z -> a = a' /\ b = b'.
Proof. lia. Qed.

(** X19: [struct.unpack('IhBB', ...)] decodes exactly the reads of eight
    bytes; the fields of a decoded event are within the ranges of their
    C types; and two reads that decode to the same event are the same
    bytes. *)
Theorem unpack_IhBB_faithful (evbuf evbuf' : list Byte.byte) (ev : Event) :
  unpack_IhBB evbuf = Ok ev ->
  List.length evbuf = 8
  /\ (0 <= ev_time ev < 2 ^ 32)%Z
  /\ (-32768 <= ev_value ev <= 32767)%Z
  /\ (0 <= ev_type ev < 256)%Z
  /\ (0 <= ev_number ev < 256)%Z
  /\ (unpack_IhBB evbuf' = Ok ev -> evbuf' = evbuf).
Proof.
  intros H.
  destruct evbuf as [|b0 [|b1 [|b2 [|b3 [|b4 [|b5 [|b6 [|b7 [|b8 t]]]]]]]]];
    try discriminate.
  apply (f_equal (fun r => match r with Ok e => e | Raise _ => ev end)) in H.
  cbv beta iota delta [unpack_IhBB] in H. subst ev.
  unfold ev_time, ev_value, ev_type, ev_number.
  pose proof (byte_val_le_255 b0). pose proof (byte_val_le_255 b1).
  pose proof (byte_val_le_255 b2). pose proof (byte_val_le_255 b3).
  pose proof (byte_val_le_255 b4). pose proof (byte_val_le_255 b5).
  pose proof (byte_val_le_255 b6). pose proof (byte_val_le_255 b7).
  rewrite !Z.shiftl_mul_pow2 by lia.
  change (2 ^ 8)%Z with 256%Z. change (2 ^ 16)%Z with 65536%Z.
  change (2 ^ 24)%Z with 16777216%Z. change (2 ^ 32)%Z with 4294967296%Z.
  split; [reflexivity|]. split; [lia|].
  split; [apply int16_range; lia|]. split; [lia|]. split; [lia|].
  destruct evbuf'
    as [|c0 [|c1 [|c2 [|c3 [|c4 [|c5 [|c6 [|c7 [|c8 t]]]]]]]]];
    try discriminate.
  unfold unpack_IhBB. intros H'.
  assert (Ht := f_equal (fun r => match r with
                                  | Ok e => ev_time e
                                  | Raise _ => 0%Z
                                  end) H').
  assert (Hv := f_equal (fun r => match r with
                                  | Ok e => ev_value e
                                  | Raise _ => 0%Z
                                  end) H').
  assert (Hty := f_equal (fun r => match r with
                                   | Ok e => ev_type e
                                   | Raise _ => 0%Z
                                   end) H').
  assert (Hn := f_equal (fun r => match r with
                                  | Ok e => ev_number e
                                  | Raise _ => 0%Z
                                  end) H').
  cbv beta iota delta [ev_time ev_value ev_type ev_number]
    in Ht, Hv, Hty, Hn.
  clear H'.
  pose proof (byte_val_le_255 c0). pose proof (byte_val_le_255 c1).
  pose proof (byte_val_le_255 c2). pose proof (byte_val_le_255 c3).
  pose proof (byte_val_le_255 c4). pose proof (byte_val_le_255 c5).
  repeat rewrite Z.shiftl_mul_pow2 in Ht by lia.
  repeat rewrite Z.shiftl_mul_pow2 in Hv by lia.
  change (2 ^ 8)%Z with 256%Z in *. change (2 ^ 16)%Z with 65536%Z in *.
  change (2 ^ 24)%Z with 16777216%Z in *.
  unfold int16 in Hv.
  assert (Hv' : (byte_val c4 + byte_val c5 * 256
                 = byte_val b4 + byte_val b5 * 256)%Z).
  { destruct (Z.ltb_spec (byte_val c4 + byte_val c5 * 256) 32768),
             (Z.ltb_spec (byte_val b4 + byte_val b5 * 256) 32768); lia. }
  destruct (@split_low_byte (byte_val c4) (byte_val c5)
              (byte_val b4) (byte_val b5)) as [E4 E5]; try lia.
  destruct (@split_low_byte (byte_val c0)
              (byte_val c1 + byte_val c2 * 256 + byte_val c3 * 65536)
              (byte_val b0)
              (byte_val b1 + byte_val b2 * 256 + byte_val b3 * 65536))
    as [E0 R1]; try lia.
  destruct (@split_low_byte (byte_val c1)
              (byte_val c2 + byte_val c3 * 256)
              (byte_val b1) (byte_val b2 + byte_val b3 * 256))
    as [E1 R2]; try lia.
  destruct (@split_low_byte (byte_val c2) (byte_val c3)
              (byte_val b2) (byte_val b3)) as [E2 E3]; try lia.
  repeat f_equal; apply byte_val_injective; assumption.
Qed.

Lemma unpack_IhBB_faithful_witness :
  List.length x_half = 8
  /\ (0 <= 0 < 2 ^ 32)%Z
  /\ (-32768 <= 16384 <= 32767)%Z
  /\ (0 <= 2 < 256)%Z
  /\ (0 <= 0 < 256)%Z
  /\ (unpack_IhBB x_half = Ok (mkEvent 0 16384 2 0) -> x_half = x_half).
Proof.
  exact (@unpack_IhBB_faithful x_half x_half (mkEvent 0 16384 2 0)
           eq_refl).
Defined.

(** ** Normalization *)

Lemma normalize_steps_checked :
  all_from (fun v => (normalize v <? normalize (v + 1))%float)
           (-32768) (Z.to_nat 65535) = true.
Proof. vm_compute. reflexivity. Qed.

(** X20: the normalized value of an axis is exactly -1.0, 0.0 and 1.0
    at the raw values -32767, 0 and 32767, and it rises with every step
    of the raw value: one more raw unit always gives a strictly larger
    [fvalue]. *)
Theorem normalize_rises (v : Z) :
  (-32768 <= v < 32767)%Z ->
  (normalize v <? normalize (v + 1))%float = true
  /\ normalize (-32767) = (-1)%float
  /\ normalize 0 = 0%float
  /\ normalize 32767 = 1%float.
Proof.
  intros Hv. split; [|repeat split].
  pose proof (@all_from_spec _ _ _ normalize_steps_checked v) as H.
  cbv beta in H. apply H. rewrite Z2Nat.id by lia. lia.
Qed.

Lemma normalize_rises_witness :
  (normalize 16384 <? normalize (16384 + 1))%float = true
  /\ normalize (-32767) = (-1)%float
  /\ normalize 0 = 0%float
  /\ normalize 32767 = 1%float.
Proof.
  apply (@normalize_rises 16384). lia.
Defined.
